(** * Seedstr marketplace agent: a shallow embedding and its properties

    The development follows the three core modules of the agent:
    - [seedstr_agent/api.py]    the marketplace client and the response
                                submission negotiator ([respond_file]);
    - [seedstr_agent/llm.py]    the model failover client ([generate]);
    - [seedstr_agent/runner.py] the job pipeline, the seen-job store and the
                                submission packager.

    Python values that cross these modules are JSON documents, so the data
    model is a [json] tree; a Python [str] is a [string] whose characters are
    read as code points below 256.  Effects (HTTP, the two model SDKs, the
    clock and the file system) are oracles of a [World]; the program threads
    an explicit [state] through them and records every oracle call. *)

From Stdlib Require Import ZArith List String Ascii Bool Lia Permutation.
From Stdlib Require Import Floats.SpecFloat DecimalString.
Import ListNotations.
Local Open Scope string_scope.
Set Warnings "-register-all".

(** ** Python strings *)

(** [str.isspace] on the code points below 256: TAB..CR, FS..US, SPACE,
    NEL (0x85) and NBSP (0xA0). *)
Definition is_space (c : ascii) : bool :=
  let n := nat_of_ascii c in
  (((9 <=? n) && (n <=? 13)) || ((28 <=? n) && (n <=? 32))
   || (n =? 133) || (n =? 160))%nat.

Fixpoint lstrip (s : string) : string :=
  match s with
  | EmptyString => EmptyString
  | String c s' => if is_space c then lstrip s' else s
  end.

Fixpoint rstrip (s : string) : string :=
  match s with
  | EmptyString => EmptyString
  | String c s' =>
      match rstrip s' with
      | EmptyString => if is_space c then EmptyString else String c EmptyString
      | r => String c r
      end
  end.

(** [s.strip()] *)
Definition strip (s : string) : string := rstrip (lstrip s).

(** Truth value of a [str]: non-empty. *)
Definition str_truthy (s : string) : bool :=
  match s with EmptyString => false | _ => true end.

(** [sep.join(parts)] *)
Fixpoint join (sep : string) (parts : list string) : string :=
  match parts with
  | [] => ""
  | [p] => p
  | p :: rest => p ++ sep ++ join sep rest
  end.

(** [str(n)] for an [int]. *)
Definition str_of_int (z : Z) : string := NilZero.string_of_int (Z.to_int z).

(** [xs.append(x)] *)
Definition push {A} (xs : list A) (x : A) : list A := (xs ++ [x])%list.

(** [x in xs] for a list of strings. *)
Definition str_in (x : string) (xs : list string) : bool :=
  existsb (String.eqb x) xs.

(** ** JSON values, as [json.loads] and [response.json()] deliver them *)

Inductive json : Type :=
| JNull
| JBool (b : bool)
| JInt (z : Z)
| JFloat (f : spec_float)
| JStr (s : string)
| JList (items : list json)
| JObj (fields : list (string * json)).

(** A Python [dict] with string keys, in insertion order. *)
Definition dict : Type := list (string * json).

Fixpoint lookup (d : dict) (k : string) : option json :=
  match d with
  | [] => None
  | (k', v) :: d' => if String.eqb k k' then Some v else lookup d' k
  end.

(** [d.get(k)]: [None] when the key is absent. *)
Definition get (d : dict) (k : string) : json :=
  match lookup d k with Some v => v | None => JNull end.

(** [d.get(k, default)] *)
Definition get_default (d : dict) (k : string) (default : json) : json :=
  match lookup d k with Some v => v | None => default end.

(** Truth value of a JSON value ([bool(v)]). *)
Definition truthy (v : json) : bool :=
  match v with
  | JNull => false
  | JBool b => b
  | JInt z => negb (z =? 0)%Z
  | JFloat (S754_zero _) => false
  | JFloat _ => true
  | JStr s => str_truthy s
  | JList l => match l with [] => false | _ => true end
  | JObj d => match d with [] => false | _ => true end
  end.

(** [a or b] on JSON values. *)
Definition py_or (a b : json) : json := if truthy a then a else b.

(** Conversions of the Python runtime that the agent calls but does not
    define: [repr] of floats and containers, the [float(str)] parser,
    [mimetypes.guess_type], and the iteration order of a [set] of strings,
    of which Python promises only that it enumerates the elements. *)
Class Builtins : Type := {
  float_repr : spec_float -> string;
  container_repr : json -> string;
  float_of_str : string -> option spec_float;
  guess_type : string -> option string;
  set_iter : list string -> list string;
  set_iter_perm : forall s, Permutation (set_iter s) s
}.

(** [str(v)] *)
Definition py_str `{Builtins} (v : json) : string :=
  match v with
  | JNull => "None"
  | JBool true => "True"
  | JBool false => "False"
  | JInt z => str_of_int z
  | JFloat f => float_repr f
  | JStr s => s
  | JList _ | JObj _ => container_repr v
  end.

(** ** Exceptions and results *)

Inductive exn : Type :=
| SeedstrApiError (msg : string)
| ValueError (msg : string)
| RuntimeError (msg : string)
| TypeError (msg : string)
| OverflowError (msg : string)
| AttributeError (msg : string)
| OtherException (msg : string).

(** [str(exc)] *)
Definition exn_str (e : exn) : string :=
  match e with
  | SeedstrApiError m | ValueError m | RuntimeError m | TypeError m
  | OverflowError m | AttributeError m | OtherException m => m
  end.

Inductive result (A : Type) : Type :=
| Ok (a : A)
| Raise (e : exn).
Arguments Ok {A} a.
Arguments Raise {A} e.

(** [isinstance(e, SeedstrApiError)] *)
Definition is_api_error (e : exn) : bool :=
  match e with SeedstrApiError _ => true | _ => false end.

(** ** The outside world *)

(** What [requests.request] hands back: [resp_json] is [None] when
    [response.json()] raises [ValueError]. *)
Record response : Type := mkResponse {
  resp_ok : bool;
  status_code : Z;
  resp_json : option json
}.

(** A member of a zip archive: name and text. *)
Definition member : Type := (string * string)%type.

Class World : Type := {
  W : Type;
  (** [requests.request(method, url, json, headers, timeout)] *)
  requests_request :
    string -> string -> option json -> list (string * string) -> Z ->
    W -> result response * W;
  (** [genai.GenerativeModel(model).generate_content(prompt).text] *)
  gemini_generate_content : string -> string -> W -> result (option string) * W;
  (** [client.chat.completions.create(...).choices[0].message.content] *)
  openai_chat_create : string -> string -> string -> W -> result (option string) * W;
  (** [datetime.now(timezone.utc).isoformat()] *)
  utc_now_isoformat : W -> string * W;
  (** [tempfile.TemporaryDirectory(prefix=...)] *)
  mkdtemp : string -> W -> result string * W;
  (** [zipfile.ZipFile(path, "w")] followed by the [writestr] calls *)
  zip_write : string -> list member -> W -> result unit * W;
  (** [path.exists()] and [base64.b64encode(path.read_bytes())]:
      [None] when the path does not exist *)
  read_bytes_b64 : string -> W -> result (option string) * W
}.

(** The [HTTPError] that [response.raise_for_status()] raises for a response
    that is not [ok]. *)
Class Requests : Type := {
  http_error : response -> exn
}.

(** Every call that leaves the process. *)
Inductive call : Type :=
| HttpCall (method url : string) (payload : option json)
| GeminiCall (model full_prompt : string)
| OpenAICall (model system_prompt prompt : string)
| ClockCall
| MkdtempCall (prefix : string)
| ZipWriteCall (path : string) (members : list member)
| ReadCall (path : string).

(** The persisted state file: absent, unreadable as JSON, or a document. *)
Inductive file : Type :=
| Missing
| Corrupt
| Doc (v : json).

Section Effects.
Context `{World}.

(** The mutable part of a run: the world, the log of calls made so far, the
    runner's in-memory [_seen_jobs] set (kept in insertion order, which only
    [set_iter] may observe) and the contents of [settings.state_path]. *)
Record state : Type := mkState {
  world : W;
  calls : list call;
  _seen_jobs : list string;
  state_file : file
}.

Definition M (A : Type) : Type := state -> result A * state.

Definition ret {A} (a : A) : M A := fun st => (Ok a, st).
Definition raise {A} (e : exn) : M A := fun st => (Raise e, st).
Definition bind {A B} (m : M A) (k : A -> M B) : M B :=
  fun st =>
    match m st with
    | (Ok a, st') => k a st'
    | (Raise e, st') => (Raise e, st')
    end.

(** Calls an oracle and logs the call. *)
Definition invoke {A} (c : call) (f : W -> result A * W) : M A :=
  fun st =>
    let (r, w') := f (world st) in
    (r, mkState w' (calls st ++ [c])%list (_seen_jobs st) (state_file st)).

(** A state whose store holds [seen], with nothing else recorded. *)
Definition state_with_seen (w : W) (seen : list string) : state :=
  mkState w [] seen Missing.

End Effects.

Notation "x <- m ;; k" := (bind m (fun x => k))
  (at level 61, m at next level, right associativity).
Notation "m ;;; k" := (bind m (fun _ => k))
  (at level 61, right associativity).

(** ** [seedstr_agent/api.py] *)

Record SeedstrApiClient : Type := mkClient {
  base_url : string;
  api_key : string;
  timeout_seconds : Z
}.

(** [Path(p).name] of a path in normal form ([path_is_normal] below), as
    the paths the agent builds are: the text after the last slash. *)
Fixpoint path_name (p : string) : string :=
  match p with
  | EmptyString => EmptyString
  | String c p' =>
      if existsb (Ascii.eqb "/"%char) (list_ascii_of_string p')
      then path_name p'
      else if Ascii.eqb c "/"%char then p' else p
  end.

(** ** [json.dumps] and [json.loads] on the documents the packager writes *)

Definition nl : string := String (ascii_of_nat 10) EmptyString.
Definition dquote : ascii := ascii_of_nat 34.
Definition backslash : ascii := ascii_of_nat 92.

Definition hex_digit (n : nat) : ascii :=
  ascii_of_nat (if (n <? 10)%nat then 48 + n else 87 + n).

(** One character under [ensure_ascii=True]: the short escapes, printable
    ASCII as it is, everything else as [\u00xx]. *)
Definition escape_char (c : ascii) : string :=
  let n := nat_of_ascii c in
  if (n =? 34)%nat then String backslash (String dquote EmptyString)
  else if (n =? 92)%nat then String backslash (String backslash EmptyString)
  else if (n =? 10)%nat then String backslash "n"
  else if (n =? 13)%nat then String backslash "r"
  else if (n =? 9)%nat then String backslash "t"
  else if (n =? 8)%nat then String backslash "b"
  else if (n =? 12)%nat then String backslash "f"
  else if ((32 <=? n) && (n <=? 126))%nat then String c EmptyString
  else String backslash
         ("u00" ++ String (hex_digit (n / 16)) (String (hex_digit (n mod 16)) EmptyString)).

Fixpoint escape (s : string) : string :=
  match s with
  | EmptyString => EmptyString
  | String c s' => escape_char c ++ escape s'
  end.

(** [json.dumps(s)] for a [str]. *)
Definition json_dumps_str (s : string) : string :=
  String dquote (escape s ++ String dquote EmptyString).

Fixpoint dumps_items (items : list (string * string)) : string :=
  match items with
  | [] => ""
  | [(k, v)] => "  " ++ json_dumps_str k ++ ": " ++ json_dumps_str v
  | (k, v) :: rest =>
      "  " ++ json_dumps_str k ++ ": " ++ json_dumps_str v ++ "," ++ nl ++
      dumps_items rest
  end.

(** [json.dumps(d, indent=2)] for a [dict] from [str] to [str]. *)
Definition json_dumps_indent2 (d : list (string * string)) : string :=
  match d with
  | [] => "{}"
  | _ => "{" ++ nl ++ dumps_items d ++ nl ++ "}"
  end.

Definition hex_value (c : ascii) : option nat :=
  let n := nat_of_ascii c in
  if ((48 <=? n) && (n <=? 57))%nat then Some (n - 48)
  else if ((97 <=? n) && (n <=? 102))%nat then Some (n - 87)
  else if ((65 <=? n) && (n <=? 70))%nat then Some (n - 55)
  else None.

(** The character a one-letter escape stands for. *)
Definition unescape (e : ascii) : option ascii :=
  let n := nat_of_ascii e in
  if (n =? 34)%nat then Some dquote
  else if (n =? 92)%nat then Some backslash
  else if (n =? 47)%nat then Some "/"%char
  else if (n =? 98)%nat then Some (ascii_of_nat 8)
  else if (n =? 102)%nat then Some (ascii_of_nat 12)
  else if (n =? 110)%nat then Some (ascii_of_nat 10)
  else if (n =? 114)%nat then Some (ascii_of_nat 13)
  else if (n =? 116)%nat then Some (ascii_of_nat 9)
  else None.

Definition prepend (c : ascii) (r : option (string * string)) : option (string * string) :=
  match r with
  | Some (body, rest) => Some (String c body, rest)
  | None => None
  end.

(** The decoder's string scanner, started after the opening quote: the
    decoded text and the input left after the closing quote.  Control
    characters are refused (strict mode); a [\u] escape above 255 leaves the
    modelled alphabet and is refused as well. *)
Fixpoint scanstring (s : string) : option (string * string) :=
  match s with
  | EmptyString => None
  | String c rest =>
      if Ascii.eqb c dquote then Some (EmptyString, rest)
      else if Ascii.eqb c backslash then
        match rest with
        | EmptyString => None
        | String e rest1 =>
            if Ascii.eqb e "u"%char then
              match rest1 with
              | String h3 (String h2 (String h1 (String h0 rest2))) =>
                  match hex_value h3, hex_value h2, hex_value h1, hex_value h0 with
                  | Some 0, Some 0, Some a, Some b =>
                      prepend (ascii_of_nat (16 * a + b)) (scanstring rest2)
                  | _, _, _, _ => None
                  end
              | _ => None
              end
            else
              match unescape e with
              | Some ch => prepend ch (scanstring rest1)
              | None => None
              end
        end
      else if (nat_of_ascii c <? 32)%nat then None
      else prepend c (scanstring rest)
  end.

(** JSON whitespace: space, TAB, LF, CR. *)
Definition json_ws (c : ascii) : bool :=
  let n := nat_of_ascii c in
  ((n =? 32) || (n =? 9) || (n =? 10) || (n =? 13))%nat.

Fixpoint skip_ws (s : string) : string :=
  match s with
  | EmptyString => EmptyString
  | String c s' => if json_ws c then skip_ws s' else s
  end.

(** Expects one character after optional whitespace. *)
Definition expect (c : ascii) (s : string) : option string :=
  match skip_ws s with
  | String c' rest => if Ascii.eqb c c' then Some rest else None
  | EmptyString => None
  end.

(** A quoted string after optional whitespace. *)
Definition parse_string (s : string) : option (string * string) :=
  match expect dquote s with
  | Some rest => scanstring rest
  | None => None
  end.

(** The members of an object after its first one has begun: [fuel] bounds
    the number of members. *)
Fixpoint parse_members (fuel : nat) (s : string) : option (list (string * string)) :=
  match fuel with
  | O => None
  | S fuel' =>
      match parse_string s with
      | Some (k, s1) =>
          match expect ":"%char s1 with
          | Some s2 =>
              match parse_string s2 with
              | Some (v, s3) =>
                  match skip_ws s3 with
                  | String c s4 =>
                      if Ascii.eqb c ","%char then
                        match parse_members fuel' s4 with
                        | Some more => Some ((k, v) :: more)
                        | None => None
                        end
                      else if Ascii.eqb c "}"%char then
                        match skip_ws s4 with
                        | EmptyString => Some [(k, v)]
                        | _ => None
                        end
                      else None
                  | EmptyString => None
                  end
              | None => None
              end
          | None => None
          end
      | None => None
      end
  end.

(** [json.loads] on a document that is an object with string values: the
    (key, value) pairs in document order. *)
Definition json_loads_str_object (s : string) : option (list (string * string)) :=
  match expect "{"%char s with
  | Some body =>
      match skip_ws body with
      | String c rest =>
          if Ascii.eqb c "}"%char then
            match skip_ws rest with EmptyString => Some [] | _ => None end
          else parse_members (String.length s) body
      | EmptyString => None
      end
  | None => None
  end.

(** ** Floats *)

(** [float(n)] for an [int]: round to nearest even in binary64; a result
    beyond the largest finite double is an [OverflowError]. *)
Definition float_of_int (z : Z) : result spec_float :=
  match binary_normalize 53 1024 z 0 false with
  | S754_infinity _ => Raise (OverflowError "int too large to convert to float")
  | f => Ok f
  end.

Definition float_zero : spec_float := S754_zero false.
Definition float_one : spec_float := S754_finite false 4503599627370496 (-52).

(** [float(v)] *)
Definition py_float `{Builtins} (v : json) : result spec_float :=
  match v with
  | JNull => Raise (TypeError "float() argument must be a string or a real number, not 'NoneType'")
  | JBool b => Ok (if b then float_one else float_zero)
  | JInt z => float_of_int z
  | JFloat f => Ok f
  | JStr s =>
      match float_of_str s with
      | Some f => Ok f
      | None => Raise (ValueError "could not convert string to float")
      end
  | JList _ => Raise (TypeError "float() argument must be a string or a real number, not 'list'")
  | JObj _ => Raise (TypeError "float() argument must be a string or a real number, not 'dict'")
  end.

(** [v == s] for a [str] literal [s]. *)
Definition eq_str (v : json) (s : string) : bool :=
  match v with JStr s' => String.eqb s' s | _ => false end.

(** ** [seedstr_agent/llm.py]: data and construction *)

Record ModelTarget : Type := mkTarget {
  provider : string;
  model : string
}.

(** [_openai_client] is the SDK client (here: the key it was built with)
    or [None]. *)
Record LLMFailoverClient : Type := mkLLM {
  targets : list ModelTarget;
  _gemini_enabled : bool;
  _openai_enabled : bool;
  _openai_client : option string
}.

Definition list_truthy {A} (l : list A) : bool :=
  match l with [] => false | _ => true end.

(** [LLMFailoverClient.__init__]; [genai.configure] and the [OpenAI]
    constructor only store the key. *)
Definition LLMFailoverClient_init (gemini_api_key openai_api_key : string)
    (gemini_models openai_models : list string) : result LLMFailoverClient :=
  let targets : list ModelTarget := [] in
  let gemini_enabled := str_truthy gemini_api_key && list_truthy gemini_models in
  let openai_enabled := str_truthy openai_api_key && list_truthy openai_models in
  let openai_client := if openai_enabled then Some openai_api_key else None in
  let targets :=
    if gemini_enabled
    then (targets ++ map (fun model => mkTarget "gemini" model) gemini_models)%list
    else targets in
  let targets :=
    if openai_enabled
    then (targets ++ map (fun model => mkTarget "openai" model) openai_models)%list
    else targets in
  if negb (list_truthy targets)
  then Raise (ValueError
                "No LLM models configured. Set GEMINI_API_KEY/OPENAI_API_KEY with model lists.")
  else Ok (mkLLM targets gemini_enabled openai_enabled openai_client).

(** [f"{target.provider}:{target.model}"] *)
Definition target_label (target : ModelTarget) : string :=
  provider target ++ ":" ++ model target.

(** ** [seedstr_agent/runner.py]: data *)

Record Settings : Type := mkSettings {
  min_budget_usd : spec_float;
  max_jobs_per_cycle : Z
}.

Record AgentRunner : Type := mkRunner {
  settings : Settings;
  api : SeedstrApiClient;
  llm : LLMFailoverClient
}.

(** [s.add(x)] on a set kept as its elements in insertion order. *)
Definition set_add (x : string) (s : list string) : list string :=
  if str_in x s then s else push s x.

(** [{x for x in xs}] *)
Definition set_of_list (xs : list string) : list string :=
  fold_left (fun s x => set_add x s) xs [].

(** [xs[-n:]] *)
Definition last_n {A} (n : nat) (xs : list A) : list A :=
  skipn (List.length xs - n) xs.

Definition system_prompt_text : string :=
  "You are an autonomous Seedstr marketplace agent. " ++
  "Give accurate and concise responses. " ++
  "If you are unsure, say what assumptions you made.".

(** The three [writestr] calls of [_create_submission_archive]. *)
Definition archive_members (job_id prompt answer model_name generated_at_utc : string)
  : list member :=
  let metadata :=
    [("job_id", job_id); ("model", model_name);
     ("generated_at_utc", generated_at_utc)] in
  [("response.txt", rstrip answer ++ nl);
   ("prompt.txt", rstrip prompt ++ nl);
   ("metadata.json", json_dumps_indent2 metadata)].

(** ** Reading archives and records back *)

(** The text stored under a name ([zf.read(name)], [record[key]]). *)
Fixpoint assoc (pairs : list (string * string)) (name : string) : option string :=
  match pairs with
  | [] => None
  | (n, text) :: rest => if String.eqb name n then Some text else assoc rest name
  end.

Definition all_space (s : string) : bool :=
  forallb is_space (list_ascii_of_string s).

(** The last character of [s] is whitespace. *)
Fixpoint ends_with_space (s : string) : bool :=
  match s with
  | EmptyString => false
  | String c EmptyString => is_space c
  | String _ s' => ends_with_space s'
  end.


(** ** The submission order in the specification's words *)

Definition file_payload (key : string) (value : json) : json :=
  JObj [("responseType", JStr "FILE"); (key, value)].

(** One attempt with the descriptors as a list, plus one with the single
    object when there is exactly one descriptor. *)
Definition descriptor_attempts (file_items : list dict) : list json :=
  match file_items with
  | [] => []
  | [d] => [file_payload "files" (JList [JObj d]); file_payload "file" (JObj d)]
  | _ => [file_payload "files" (JList (map JObj file_items))]
  end.

(** The five shapes of one reference string. *)
Definition reference_attempts (ref : string) : list json :=
  [file_payload "content" (JStr ref);
   file_payload "fileUrl" (JStr ref);
   file_payload "url" (JStr ref);
   file_payload "attachments" (JList [JStr ref]);
   file_payload "files" (JList [JObj [("url", JStr ref)]])].

Definition text_attempt (fallback_text : string) : json :=
  JObj [("responseType", JStr "TEXT"); ("content", JStr fallback_text)].

Definition attempt_order (file_items : list dict) (refs : list string)
    (fallback_text : string) : list json :=
  (descriptor_attempts file_items ++ flat_map reference_attempts refs ++
   [text_attempt fallback_text])%list.

(** ** [seedstr_agent/config.py] and the client constructor *)

(** [s.split(sep)] for a one-character separator: the pieces between the
    separators, so that the empty text gives one empty piece. *)
Fixpoint split_on (sep : ascii) (s : string) : list string :=
  match s with
  | EmptyString => [EmptyString]
  | String c s' =>
      if Ascii.eqb c sep then EmptyString :: split_on sep s'
      else
        match split_on sep s' with
        | [] => [String c EmptyString]
        | piece :: pieces => String c piece :: pieces
        end
  end.

(** The comprehension [[item.strip() for item in items if item.strip()]]
    of [_split_models], [update_skills] and the [skills] commands. *)
Definition stripped_items (items : list string) : list string :=
  map strip (filter (fun item => str_truthy (strip item)) items).

Definition _split_models (raw : string) : list string :=
  stripped_items (split_on ","%char raw).

(** The provider fields of [Settings]. *)
Record ProviderSettings : Type := mkProviders {
  gemini_api_key : string;
  openai_api_key : string;
  gemini_models : list string;
  openai_models : list string
}.

(** The property [Settings.has_llm_provider]. *)
Definition has_llm_provider (self : ProviderSettings) : bool :=
  (str_truthy (gemini_api_key self) && list_truthy (gemini_models self))
  || (str_truthy (openai_api_key self) && list_truthy (openai_models self)).

(** [s.rstrip(chars)] for a one-character set. *)
Fixpoint rstrip_char (ch : ascii) (s : string) : string :=
  match s with
  | EmptyString => EmptyString
  | String c s' =>
      match rstrip_char ch s' with
      | EmptyString => if Ascii.eqb c ch then EmptyString else String c EmptyString
      | r => String c r
      end
  end.

(** [SeedstrApiClient.__init__] *)
Definition SeedstrApiClient_init (base_url api_key : string) (timeout_seconds : Z)
  : SeedstrApiClient :=
  mkClient (rstrip_char "/"%char base_url) (strip api_key) timeout_seconds.

Definition set_api_key (self : SeedstrApiClient) (api_key : string) : SeedstrApiClient :=
  mkClient (base_url self) (strip api_key) (timeout_seconds self).

(** [c] does not occur in [s]. *)
Definition char_free (c : ascii) (s : string) : bool :=
  forallb (fun x => negb (Ascii.eqb x c)) (list_ascii_of_string s).

(** The first character of [s] is whitespace. *)
Definition starts_with_space (s : string) : bool :=
  match s with
  | EmptyString => false
  | String c _ => is_space c
  end.

(** The last character of [s] is [c]. *)
Fixpoint ends_with_char (ch : ascii) (s : string) : bool :=
  match s with
  | EmptyString => false
  | String c EmptyString => Ascii.eqb c ch
  | String _ s' => ends_with_char ch s'
  end.

(** The payload entry of an optional profile field: present when the
    argument is not [None]. *)
Definition given_field (key : string) (value : option string) : dict :=
  match value with
  | Some v => [(key, JStr v)]
  | None => []
  end.

(** A path text that [Path] leaves as it is: not empty, and after an
    optional leading slash every component between slashes is neither empty
    nor a single dot.  For such a text [str(Path(p))] is [p] and
    [Path(p).name] is its last component. *)
Definition path_is_normal (p : string) : bool :=
  let proper (component : string) :=
    negb (String.eqb component "") && negb (String.eqb component ".") in
  match split_on "/"%char p with
  | [] => false
  | [only] => proper only
  | first :: rest => (String.eqb first "" || proper first) && forallb proper rest
  end.

(** The headers [_request] sends. *)
Definition request_headers (self : SeedstrApiClient) : list (string * string) :=
  ("Content-Type", "application/json") ::
  (if str_truthy (api_key self)
   then [("Authorization", "Bearer " ++ api_key self)] else []).

(** The one file entry of the payload that [upload_file] posts. *)
Definition upload_payload `{Builtins} (file_path encoded : string) : json :=
  JObj [("files",
         JList [JObj [("name", JStr (path_name file_path));
                      ("content", JStr encoded);
                      ("type",
                       JStr match guess_type (path_name file_path) with
                            | Some mime_type =>
                                if str_truthy mime_type then mime_type
                                else "application/octet-stream"
                            | None => "application/octet-stream"
                            end)]])].

(** ** Test doubles: a scripted world and fixed builtins

    Each oracle answers from its own script, in order, and refuses the call
    once the script is used up. *)

Record script : Type := mkScript {
  http_replies : list (result response);
  gemini_replies : list (result (option string));
  openai_replies : list (result (option string))
}.

Definition pop {A} (l : list (result A)) : result A * list (result A) :=
  match l with
  | [] => (Raise (OtherException "connection refused"), [])
  | r :: l' => (r, l')
  end.

Definition scripted_world : World := {|
  W := script;
  requests_request := fun _ _ _ _ _ w =>
    let (r, rest) := pop (http_replies w) in
    (r, mkScript rest (gemini_replies w) (openai_replies w));
  gemini_generate_content := fun _ _ w =>
    let (r, rest) := pop (gemini_replies w) in
    (r, mkScript (http_replies w) rest (openai_replies w));
  openai_chat_create := fun _ _ _ w =>
    let (r, rest) := pop (openai_replies w) in
    (r, mkScript (http_replies w) (gemini_replies w) rest);
  utc_now_isoformat := fun w => ("2024-05-01T12:00:00+00:00", w);
  mkdtemp := fun prefix w => (Ok ("/tmp/" ++ prefix ++ "x"), w);
  zip_write := fun _ _ w => (Ok tt, w);
  read_bytes_b64 := fun _ w => (Ok (Some "UEsDBA=="), w)
|}.

(** Builtins for the examples: containers and floats print as a fixed text,
    only the text [1.5] parses as a float, and a set enumerates back to
    front. *)
Definition reversing_builtins : Builtins := {|
  float_repr := fun _ => "<float>";
  container_repr := fun _ => "<container>";
  float_of_str := fun s =>
    if String.eqb s "1.5" then Some (S754_finite false 6755399441055744 (-52)) else None;
  guess_type := fun name => None;
  set_iter := fun s => rev s;
  set_iter_perm := fun s => Permutation_sym (Permutation_rev s)
|}.

(** The same with sets that enumerate in insertion order. *)
Definition ordered_builtins : Builtins := {|
  float_repr := fun _ => "<float>";
  container_repr := fun _ => "<container>";
  float_of_str := fun s =>
    if String.eqb s "1.5" then Some (S754_finite false 6755399441055744 (-52)) else None;
  guess_type := fun name => None;
  set_iter := fun s => s;
  set_iter_perm := fun s => Permutation_refl s
|}.

Definition ok_reply (data : json) : result response :=
  Ok (mkResponse true 200 (Some data)).

Definition error_reply (status : Z) (message : string) : result response :=
  Ok (mkResponse false status (Some (JObj [("message", JStr message)]))).

Definition test_client : SeedstrApiClient :=
  mkClient "https://api.example.com" "token" 30.

Definition test_llm : LLMFailoverClient :=
  mkLLM [mkTarget "gemini" "g1"; mkTarget "openai" "o1"] true true (Some "o").

(** [min_budget_usd = 1.0] *)
Definition test_runner : AgentRunner :=
  mkRunner (mkSettings float_one 10) test_client test_llm.

(** [2.0] and [5.0] *)
Definition float_two : spec_float := S754_finite false 4503599627370496 (-51).
Definition float_five : spec_float := S754_finite false 5629499534213120 (-50).

(** [{"id": "2", "budget": 2.0, "prompt": "solve this"}] *)
Definition job_2 : dict :=
  [("id", JStr "2"); ("budget", JFloat float_two); ("prompt", JStr "solve this")].

(** A SWARM job that carries [budget] but no [budgetPerAgent]. *)
Definition swarm_job_with_budget : dict :=
  [("id", JStr "7"); ("jobType", JStr "SWARM"); ("budget", JInt 5)].

(** A SWARM job whose [budgetPerAgent] is not a number. *)
Definition swarm_job_bad_budget : dict :=
  [("id", JStr "8"); ("jobType", JStr "SWARM"); ("budgetPerAgent", JStr "abc");
   ("budget", JInt 5)].

(** The job ids ["0"], ["1"], ... of [n] jobs. *)
Definition job_ids (n : nat) : list string :=
  map (fun k => str_of_int (Z.of_nat k)) (seq 0 n).

(** A run of the scripted world that starts with the store [seen]. *)
Definition start (w : script) (seen : list string) : @state scripted_world :=
  @state_with_seen scripted_world w seen.

(** The store at its cap: ids ["0"] to ["999"], inserted in that order. *)
Definition full_store : @state scripted_world :=
  start (mkScript [] [] []) (job_ids 1000).

(** The upload answers with one file descriptor, the respond call is
    accepted, and Gemini answers the prompt. *)
Definition submit_script : script :=
  mkScript
    [ok_reply (JObj [("files", JList [JObj [("url", JStr "https://cdn.example/a.zip")]])]);
     ok_reply (JObj [("ok", JBool true)])]
    [Ok (Some "final output")] [].

(** [0.1] and [3.0] *)
Definition float_tenth : spec_float := S754_finite false 7205759403792794 (-56).
Definition float_three : spec_float := S754_finite false 6755399441055744 (-51).

(** [{"id": "1", "budget": 0.1, "prompt": "ignored"}] *)
Definition job_1 : dict :=
  [("id", JStr "1"); ("budget", JFloat float_tenth); ("prompt", JStr "ignored")].

(** [{"id": "3", "jobType": "SWARM", "budgetPerAgent": 3.0, "prompt": "swarm task"}] *)
Definition job_3 : dict :=
  [("id", JStr "3"); ("jobType", JStr "SWARM"); ("budgetPerAgent", JFloat float_three);
   ("prompt", JStr "swarm task")].

(** The listing is refused. *)
Definition listing_down : script := mkScript [error_reply 503 "down"] [] [].

Section Agent.
Context `{Builtins} `{World}.

(** [try: m  except <handles> as exc: h exc] *)
Definition try_except {A} (m : M A) (handles : exn -> bool) (h : exn -> M A) : M A :=
  fun st =>
    match m st with
    | (Ok a, st') => (Ok a, st')
    | (Raise e, st') => if handles e then h e st' else (Raise e, st')
    end.

(** [except Exception] *)
Definition any_exception (e : exn) : bool := true.

Definition _request (self : SeedstrApiClient) (method endpoint : string)
    (payload : option json) : M json :=
  let headers :=
    ("Content-Type", "application/json") ::
    (if str_truthy (api_key self)
     then [("Authorization", "Bearer " ++ api_key self)] else []) in
  let url := base_url self ++ endpoint in
  response <- invoke (HttpCall method url payload)
                (requests_request method url payload headers (timeout_seconds self)) ;;
  match resp_json response with
  | None =>
      raise (SeedstrApiError
               ("Invalid JSON from API (" ++ str_of_int (status_code response) ++ ")"))
  | Some data =>
      if resp_ok response then ret data
      else
        match data with
        | JObj d =>
            let message :=
              py_or (py_or (get d "message") (get d "error"))
                    (JStr ("HTTP " ++ str_of_int (status_code response))) in
            raise (SeedstrApiError (py_str message))
        | _ => raise (AttributeError "object has no attribute 'get'")
        end
  end.

Definition accept_job (self : SeedstrApiClient) (job_id : string) : M json :=
  _request self "POST" ("/jobs/" ++ job_id ++ "/accept") None.

Definition respond_text (self : SeedstrApiClient) (job_id content : string) : M json :=
  _request self "POST" ("/jobs/" ++ job_id ++ "/respond")
    (Some (JObj [("content", JStr content); ("responseType", JStr "TEXT")])).

Definition _extract_upload_file_candidates (upload_result : dict) : list dict :=
  match get upload_result "files" with
  | JList files =>
      flat_map (fun item => match item with JObj d => [d] | _ => [] end) files
  | _ =>
      match get upload_result "file" with
      | JObj file_obj => [file_obj]
      | _ => []
      end
  end.

Definition upload_keys : list string :=
  ["url"; "fileUrl"; "cdnUrl"; "signedUrl"; "path"; "key"; "id"; "fileId"].

(** The local function [add_ref], with [refs] passed and returned. *)
Definition add_ref (refs : list string) (value : json) : list string :=
  match value with
  | JNull => refs
  | _ =>
      let text := strip (py_str value) in
      if str_truthy text && negb (str_in text refs)
      then push refs text else refs
  end.

Definition _extract_upload_reference_strings (upload_result : dict) : list string :=
  let refs : list string := [] in
  let refs :=
    fold_left (fun refs key => add_ref refs (get upload_result key)) upload_keys refs in
  fold_left
    (fun refs item =>
       fold_left (fun refs key => add_ref refs (get item key)) upload_keys refs)
    (_extract_upload_file_candidates upload_result) refs.

(** The list [attempts] that [respond_file] builds before its loop. *)
Definition respond_file_attempts (upload_result : dict) (fallback_text : string)
  : list json :=
  let file_items := _extract_upload_file_candidates upload_result in
  let refs := _extract_upload_reference_strings upload_result in
  let attempts : list json := [] in
  let attempts :=
    match file_items with
    | [] => attempts
    | _ =>
        let attempts :=
          (attempts ++
           [JObj [("responseType", JStr "FILE");
                  ("files", JList (map JObj file_items))]])%list in
        if (List.length file_items =? 1)%nat
        then (attempts ++
              [JObj [("responseType", JStr "FILE");
                     ("file", JObj (List.hd [] file_items))]])%list
        else attempts
    end in
  let attempts :=
    fold_left
      (fun attempts ref =>
         (attempts ++
          [JObj [("responseType", JStr "FILE"); ("content", JStr ref)];
           JObj [("responseType", JStr "FILE"); ("fileUrl", JStr ref)];
           JObj [("responseType", JStr "FILE"); ("url", JStr ref)];
           JObj [("responseType", JStr "FILE"); ("attachments", JList [JStr ref])];
           JObj [("responseType", JStr "FILE");
                 ("files", JList [JObj [("url", JStr ref)]])]])%list)
      refs attempts in
  (attempts ++
   [JObj [("responseType", JStr "TEXT"); ("content", JStr fallback_text)]])%list.

(** The loop [for payload in attempts] with its [last_error], and the final
    [raise]. *)
Fixpoint respond_file_loop (self : SeedstrApiClient) (job_id endpoint : string)
    (attempts : list json) (last_error : option exn) : M json :=
  match attempts with
  | [] =>
      raise (SeedstrApiError
               ("Failed to submit file response for job " ++ job_id ++ ": " ++
                match last_error with
                | Some exc => exn_str exc
                | None => "None"
                end))
  | payload :: rest =>
      try_except (_request self "POST" endpoint (Some payload)) is_api_error
        (fun exc => respond_file_loop self job_id endpoint rest (Some exc))
  end.

Definition respond_file (self : SeedstrApiClient) (job_id : string)
    (upload_result : dict) (fallback_text : string) : M json :=
  let endpoint := "/jobs/" ++ job_id ++ "/respond" in
  respond_file_loop self job_id endpoint
    (respond_file_attempts upload_result fallback_text) None.

Definition upload_file (self : SeedstrApiClient) (file_path : string) : M json :=
  found <- invoke (ReadCall file_path) (read_bytes_b64 file_path) ;;
  match found with
  | None => raise (SeedstrApiError ("File not found: " ++ file_path))
  | Some encoded =>
      let file_type :=
        match guess_type (path_name file_path) with
        | Some mime_type =>
            if str_truthy mime_type then mime_type else "application/octet-stream"
        | None => "application/octet-stream"
        end in
      _request self "POST" "/upload"
        (Some (JObj [("files",
                      JList [JObj [("name", JStr (path_name file_path));
                                   ("content", JStr encoded);
                                   ("type", JStr file_type)]])]))
  end.

(** ** [seedstr_agent/llm.py]: generation *)

Definition _generate_gemini (self : LLMFailoverClient)
    (model_name prompt system_prompt : string) : M string :=
  let full_prompt :=
    system_prompt ++ nl ++ nl ++
    "User task:" ++ nl ++ prompt ++ nl ++ nl ++
    "Return only the final answer for the user." in
  text <- invoke (GeminiCall model_name full_prompt)
            (gemini_generate_content model_name full_prompt) ;;
  match text with
  | Some text =>
      if str_truthy text then ret text
      else raise (RuntimeError "Gemini response has no text field")
  | None => raise (RuntimeError "Gemini response has no text field")
  end.

Definition _generate_openai (self : LLMFailoverClient)
    (model_name prompt system_prompt : string) : M string :=
  match _openai_client self with
  | None => raise (RuntimeError "OpenAI client is not configured")
  | Some _ =>
      content <- invoke (OpenAICall model_name system_prompt prompt)
                   (openai_chat_create model_name system_prompt prompt) ;;
      match content with
      | Some content =>
          if str_truthy content then ret content
          else raise (RuntimeError "OpenAI response is empty")
      | None => raise (RuntimeError "OpenAI response is empty")
      end
  end.

(** The provider call that [generate] selects for one target. *)
Definition provider_call (self : LLMFailoverClient) (target : ModelTarget)
    (prompt system_prompt : string) : M string :=
  if String.eqb (provider target) "gemini"
  then _generate_gemini self (model target) prompt system_prompt
  else _generate_openai self (model target) prompt system_prompt.

(** The loop [for target in self.targets] with its [errors] list, and the
    final [raise]. *)
Fixpoint generate_loop (self : LLMFailoverClient) (prompt system_prompt : string)
    (targets : list ModelTarget) (errors : list string) : M (string * string) :=
  match targets with
  | [] => raise (RuntimeError ("All configured models failed. " ++ join " | " errors))
  | target :: rest =>
      fun st =>
        match provider_call self target prompt system_prompt st with
        | (Ok text, st') =>
            if str_truthy (strip text)
            then (Ok (strip text, target_label target), st')
            else
              generate_loop self prompt system_prompt rest
                (push errors (target_label target ++ " returned empty output")) st'
        | (Raise exc, st') =>
            let msg := target_label target ++ " failed: " ++ exn_str exc in
            generate_loop self prompt system_prompt rest (push errors msg) st'
        end
  end.

Definition generate (self : LLMFailoverClient) (prompt system_prompt : string)
  : M (string * string) :=
  generate_loop self prompt system_prompt (targets self) [].

(** ** [seedstr_agent/runner.py]: the pipeline *)

(** [try: return float(v)  except (TypeError, ValueError): return 0.0] *)
Definition float_or_zero (v : json) : result spec_float :=
  match py_float v with
  | Ok f => Ok f
  | Raise (TypeError _) | Raise (ValueError _) => Ok float_zero
  | Raise e => Raise e
  end.

Definition _effective_budget (job : dict) : result spec_float :=
  if eq_str (get job "jobType") "SWARM" then
    match get job "budgetPerAgent" with
    | JNull => float_or_zero (get_default job "budget" (JInt 0))
    | per_agent => float_or_zero per_agent
    end
  else float_or_zero (get_default job "budget" (JInt 0)).

(** [{str(item) for item in jobs}]: a list yields its items, a [str] its
    characters, a [dict] its keys; anything else is not iterable. *)
Definition iterate (v : json) : option (list json) :=
  match v with
  | JList items => Some items
  | JStr s => Some (map (fun c => JStr (String c EmptyString)) (list_ascii_of_string s))
  | JObj d => Some (map (fun kv => JStr (fst kv)) d)
  | _ => None
  end.

Definition _load_seen_jobs (f : file) : list string :=
  match f with
  | Missing => []
  | Corrupt => []
  | Doc (JObj payload) =>
      match iterate (get_default payload "seen_jobs" (JList [])) with
      | Some jobs => set_of_list (map py_str jobs)
      | None => []
      end
  | Doc _ => []
  end.

(** The array [_mark_seen] writes under the key [seen_jobs]. *)
Definition persisted (f : file) : list json :=
  match f with
  | Doc (JObj [("seen_jobs", JList ids)]) => ids
  | _ => []
  end.

Definition _mark_seen (self : AgentRunner) (job_id : string) : M unit :=
  fun st =>
    let seen := set_add job_id (_seen_jobs st) in
    let trimmed := last_n 1000 (set_iter seen) in
    (Ok tt,
     mkState (world st) (calls st) seen
       (Doc (JObj [("seen_jobs", JList (map JStr trimmed))]))).

Definition _create_submission_archive (archive_path job_id prompt answer model_name : string)
  : M unit :=
  generated_at_utc <- invoke ClockCall
                        (fun w => let (t, w') := utc_now_isoformat w in (Ok t, w')) ;;
  let members := archive_members job_id prompt answer model_name generated_at_utc in
  invoke (ZipWriteCall archive_path members) (zip_write archive_path members).

(** [respond_file] as the runner calls it: the upload result is whatever
    [_request] returned, and only a [dict] has [get]. *)
Definition respond_file_any (self : SeedstrApiClient) (job_id : string)
    (upload_result : json) (fallback_text : string) : M json :=
  match upload_result with
  | JObj d => respond_file self job_id d fallback_text
  | _ => raise (AttributeError "object has no attribute 'get'")
  end.

(** The [with tempfile.TemporaryDirectory] block of [_process_job]:
    packaging, upload and response. *)
Definition package_and_respond (self : AgentRunner) (job_id prompt answer used_model : string)
  : M unit :=
  temp_dir <- invoke (MkdtempCall ("seedstr-" ++ job_id ++ "-"))
                (mkdtemp ("seedstr-" ++ job_id ++ "-")) ;;
  let archive_path := temp_dir ++ "/" ++ "seedstr-job-" ++ job_id ++ "-response.zip" in
  _create_submission_archive archive_path job_id prompt answer used_model ;;;
  upload_result <- upload_file (api self) archive_path ;;
  respond_file_any (api self) job_id upload_result answer ;;;
  ret tt.

(** The body of the [try] block of [_process_job]. *)
Definition generate_and_submit (self : AgentRunner) (job_id prompt : string) : M unit :=
  r <- generate (llm self) prompt system_prompt_text ;;
  package_and_respond self job_id prompt (fst r) (snd r) ;;;
  _mark_seen self job_id.

(** The SWARM accept step: [true] when processing goes on. *)
Definition accept_if_swarm (self : AgentRunner) (job : dict) (job_id : string) : M bool :=
  let job_type := py_str (get_default job "jobType" (JStr "STANDARD")) in
  if String.eqb job_type "SWARM" then
    try_except (accept_job (api self) job_id ;;; ret true) is_api_error
      (fun exc => _mark_seen self job_id ;;; ret false)
  else ret true.

Definition _process_job (self : AgentRunner) (job : dict) : M unit :=
  let job_id := py_str (get_default job "id" (JStr "")) in
  if negb (str_truthy job_id) then ret tt
  else fun st =>
    if str_in job_id (_seen_jobs st) then (Ok tt, st)
    else
      match _effective_budget job with
      | Raise e => (Raise e, st)
      | Ok effective_budget =>
          if SFltb effective_budget (min_budget_usd (settings self))
          then _mark_seen self job_id st
          else
            (go_on <- accept_if_swarm self job job_id ;;
             if negb go_on then ret tt
             else
               let prompt := strip (py_str (get_default job "prompt" (JStr ""))) in
               if negb (str_truthy prompt) then _mark_seen self job_id
               else
                 try_except (generate_and_submit self job_id prompt) any_exception
                   (fun exc => ret tt)) st
      end.

(** ** [seedstr_agent/api.py]: the remaining operations *)

Definition register (self : SeedstrApiClient) (wallet_address : string)
    (owner_url : option string) : M json :=
  let body : dict := [("walletAddress", JStr wallet_address)] in
  let body :=
    match owner_url with
    | Some url => if str_truthy url then push body ("ownerUrl", JStr url) else body
    | None => body
    end in
  _request self "POST" "/register" (Some (JObj body)).

Definition verify (self : SeedstrApiClient) : M json :=
  _request self "POST" "/verify" None.

Definition get_me (self : SeedstrApiClient) : M json :=
  _request self "GET" "/me" None.

Definition update_profile (self : SeedstrApiClient)
    (name bio profile_picture : option string) : M json :=
  let payload : dict := [] in
  let payload :=
    match name with Some v => push payload ("name", JStr v) | None => payload end in
  let payload :=
    match bio with Some v => push payload ("bio", JStr v) | None => payload end in
  let payload :=
    match profile_picture with
    | Some v => push payload ("profilePicture", JStr v)
    | None => payload
    end in
  if negb (list_truthy payload)
  then raise (SeedstrApiError "No profile fields provided")
  else _request self "PATCH" "/me" (Some (JObj payload)).


Definition list_skills (self : SeedstrApiClient) : M json :=
  _request self "GET" "/skills" None.

Definition list_jobs (self : SeedstrApiClient) (limit offset : Z) : M json :=
  _request self "GET"
    ("/jobs?limit=" ++ str_of_int limit ++ "&offset=" ++ str_of_int offset) None.

Definition decline_job (self : SeedstrApiClient) (job_id reason : string) : M json :=
  _request self "POST" ("/jobs/" ++ job_id ++ "/decline")
    (Some (JObj [("reason", JStr reason)])).

(** ** [seedstr_agent/runner.py]: one polling cycle *)

(** [job.get] needs a [dict]. *)
Definition process_item (self : AgentRunner) (job : json) : M unit :=
  match job with
  | JObj d => _process_job self d
  | _ => raise (AttributeError "object has no attribute 'get'")
  end.

(** [for job in jobs: self._process_job(job)] *)
Fixpoint process_jobs (self : AgentRunner) (jobs : list json) : M unit :=
  match jobs with
  | [] => ret tt
  | job :: rest => process_item self job ;;; process_jobs self rest
  end.

Definition run_once (self : AgentRunner) : M unit :=
  fun st =>
    match list_jobs (api self) (max_jobs_per_cycle (settings self)) 0 st with
    | (Raise exc, st1) =>
        if is_api_error exc then (Ok tt, st1) else (Raise exc, st1)
    | (Ok payload, st1) =>
        match payload with
        | JObj d =>
            let jobs := get_default d "jobs" (JList []) in
            if negb (truthy jobs) then (Ok tt, st1)
            else
              match iterate jobs with
              | Some items => process_jobs self items st1
              | None => (Raise (TypeError "object is not iterable"), st1)
              end
        | _ => (Raise (AttributeError "object has no attribute 'get'"), st1)
        end
    end.

(** The log entry of the provider call for one target. *)
Definition sdk_call (prompt system_prompt : string) (target : ModelTarget) : call :=
  if String.eqb (provider target) "gemini"
  then GeminiCall (model target)
         (system_prompt ++ nl ++ nl ++
          "User task:" ++ nl ++ prompt ++ nl ++ nl ++
          "Return only the final answer for the user.")
  else OpenAICall (model target) system_prompt prompt.

(** The log entry of the listing call of [run_once]. *)
Definition listing_call (self : AgentRunner) : call :=
  HttpCall "GET"
    (base_url (api self) ++
     "/jobs?limit=" ++ str_of_int (max_jobs_per_cycle (settings self)) ++ "&offset=" ++
     str_of_int 0)
    None.

(** ** [public_endpoints_check.py]: fetching *)

Definition _request_json `{Requests} (base_url endpoint : string) (timeout_seconds : Z)
    (api_key : option string) : M dict :=
  let headers :=
    ("Content-Type", "application/json") ::
    (match api_key with
     | Some key => if str_truthy key then [("Authorization", "Bearer " ++ key)] else []
     | None => []
     end) in
  let url := rstrip_char "/"%char base_url ++ endpoint in
  response <- invoke (HttpCall "GET" url None)
                (requests_request "GET" url None headers timeout_seconds) ;;
  if negb (resp_ok response) then raise (http_error response)
  else
    match resp_json response with
    | None =>
        raise (RuntimeError
                 ("Non-JSON response from " ++ endpoint ++ ": HTTP " ++
                  str_of_int (status_code response)))
    | Some (JObj payload) => ret payload
    | Some _ =>
        raise (RuntimeError
                 ("Unexpected response shape from " ++ endpoint ++
                  ": expected JSON object"))
    end.

(** The loop [for endpoint in endpoints] of [_fetch_with_fallback], with
    its [last_error], and the final [raise]; [tried] is the whole list. *)
Fixpoint fetch_loop `{Requests} (base_url name : string) (tried : list string)
    (timeout_seconds : Z) (api_key : option string)
    (endpoints : list string) (last_error : option exn) : M (string * dict) :=
  match endpoints with
  | [] =>
      raise (RuntimeError
               ("Could not fetch " ++ name ++ ". Tried " ++
                container_repr (JList (map JStr tried)) ++ ". Last error: " ++
                match last_error with
                | Some exc => exn_str exc
                | None => "None"
                end))
  | endpoint :: rest =>
      try_except
        (payload <- _request_json base_url endpoint timeout_seconds api_key ;;
         ret (endpoint, payload))
        any_exception
        (fun exc => fetch_loop base_url name tried timeout_seconds api_key rest (Some exc))
  end.

Definition _fetch_with_fallback `{Requests} (base_url name : string)
    (endpoints : list string) (timeout_seconds : Z) (api_key : option string)
  : M (string * dict) :=
  fetch_loop base_url name endpoints timeout_seconds api_key endpoints None.

(** The log entry of the accept call for a job. *)
Definition accept_call (self : AgentRunner) (job_id : string) : call :=
  HttpCall "POST" (base_url (api self) ++ "/jobs/" ++ job_id ++ "/accept") None.

(** The log entry of one GET of the probe script. *)
Definition probe_call (base_url endpoint : string) : call :=
  HttpCall "GET" (rstrip_char "/"%char base_url ++ endpoint) None.

(** [m] only adds to the log of calls. *)
Definition appends_calls {A} (m : M A) : Prop :=
  forall st, exists more, calls (snd (m st)) = (calls st ++ more)%list.


(** Every endpoint of the list, requested in order from [st], raised;
    [last] is the most recent exception afterwards. *)
Inductive all_fetches_failed `{Requests} (base_url : string) (timeout_seconds : Z)
    (api_key : option string)
  : list string -> state -> option exn -> state -> option exn -> Prop :=
| fetches_nil st last :
    all_fetches_failed base_url timeout_seconds api_key [] st last st last
| fetches_cons endpoint rest st last exc st1 st2 last2 :
    _request_json base_url endpoint timeout_seconds api_key st = (Raise exc, st1) ->
    all_fetches_failed base_url timeout_seconds api_key rest st1 (Some exc) st2 last2 ->
    all_fetches_failed base_url timeout_seconds api_key (endpoint :: rest) st last st2 last2.

(** The message of the error [_fetch_with_fallback] raises at the end. *)
Definition fetch_failed_message (name : string) (endpoints : list string)
    (last_error : option exn) : string :=
  "Could not fetch " ++ name ++ ". Tried " ++
  container_repr (JList (map JStr endpoints)) ++ ". Last error: " ++
  match last_error with
  | Some exc => exn_str exc
  | None => "None"
  end.

(** ** Relations that describe a run, for the statements below *)

(** Every payload of the list, tried in order from [st], raised a
    [SeedstrApiError]; [last] is the most recent error afterwards. *)
Inductive all_rejected (self : SeedstrApiClient) (endpoint : string)
  : list json -> state -> option exn -> state -> option exn -> Prop :=
| rejected_nil st last : all_rejected self endpoint [] st last st last
| rejected_cons payload rest st last m st1 st2 last2 :
    _request self "POST" endpoint (Some payload) st = (Raise (SeedstrApiError m), st1) ->
    all_rejected self endpoint rest st1 (Some (SeedstrApiError m)) st2 last2 ->
    all_rejected self endpoint (payload :: rest) st last st2 last2.

(** The log entry of one submission attempt. *)
Definition sent (self : SeedstrApiClient) (endpoint : string) (payload : json) : call :=
  HttpCall "POST" (base_url self ++ endpoint) (Some payload).

Definition exhausted_message (job_id : string) (last_error : option exn) : string :=
  "Failed to submit file response for job " ++ job_id ++ ": " ++
  match last_error with Some exc => exn_str exc | None => "None" end.

(** The provider call of [target], made in [st], fails: it raises, or it
    returns text that is empty once stripped.  [reason] is the line
    [generate] records for it. *)
Inductive target_fails (self : LLMFailoverClient) (prompt system_prompt : string)
    (target : ModelTarget) (st : state) : string -> state -> Prop :=
| fails_raise exc st' :
    provider_call self target prompt system_prompt st = (Raise exc, st') ->
    target_fails self prompt system_prompt target st
      (target_label target ++ " failed: " ++ exn_str exc) st'
| fails_blank text st' :
    provider_call self target prompt system_prompt st = (Ok text, st') ->
    strip text = "" ->
    target_fails self prompt system_prompt target st
      (target_label target ++ " returned empty output") st'.

(** Every target of the list, tried in order from [st], fails; [reasons]
    are the recorded lines, one per target, in that order. *)
Inductive all_failed (self : LLMFailoverClient) (prompt system_prompt : string)
  : list ModelTarget -> state -> list string -> state -> Prop :=
| failed_nil st : all_failed self prompt system_prompt [] st [] st
| failed_cons target rest st reason st1 reasons st2 :
    target_fails self prompt system_prompt target st reason st1 ->
    all_failed self prompt system_prompt rest st1 reasons st2 ->
    all_failed self prompt system_prompt (target :: rest) st (reason :: reasons) st2.

(** A provider is enabled when both its credential and its model list are
    non-empty. *)
Definition enabled (api_key : string) (models : list string) : bool :=
  negb (String.eqb api_key "") && negb (Nat.eqb (List.length models) 0).

(** The value whose coercion is the effective budget: [budgetPerAgent] of a
    SWARM job that carries one, the [budget] (or the integer 0 when there is
    none) of every other job. *)
Definition budget_source (job : dict) : json :=
  if eq_str (get job "jobType") "SWARM" then
    match get job "budgetPerAgent" with
    | JNull => get_default job "budget" (JInt 0)
    | per_agent => per_agent
    end
  else get_default job "budget" (JInt 0).

(** The effective budget in the specification's words: a SWARM job uses
    [budgetPerAgent] when present and coercible, else 0; any other job uses
    [budget] when present and coercible, else 0. *)
Definition budget_in_spec_words (job : dict) : spec_float :=
  let coerced_or_zero (v : option json) :=
    match v with
    | Some v => match py_float v with Ok f => f | Raise _ => float_zero end
    | None => float_zero
    end in
  if eq_str (get job "jobType") "SWARM"
  then coerced_or_zero (lookup job "budgetPerAgent")
  else coerced_or_zero (lookup job "budget").


(** ** The per-job state machine of the specification *)

(** The locals [job_id], [job_type] and [prompt] of [_process_job]. *)
Definition job_id_of (job : dict) : string :=
  py_str (get_default job "id" (JStr "")).
Definition job_type_of (job : dict) : string :=
  py_str (get_default job "jobType" (JStr "STANDARD")).
Definition prompt_of (job : dict) : string :=
  strip (py_str (get_default job "prompt" (JStr ""))).

Inductive stage : Type := Generation | Packaging | Upload | Response.

(** Terminal states of one job; [Crashed] is an exception that leaves
    [_process_job]. *)
Inductive terminal : Type :=
| SkippedNoId
| SkippedAlreadySeen
| SkippedUnderBudget
| FailedAccept
| SkippedEmptyPrompt
| Submitted
| Failed (at_stage : stage) (e : exn)
| Crashed (e : exn).

(** The terminal states that the specification marks as seen. *)
Definition marks_seen (t : terminal) : bool :=
  match t with
  | SkippedUnderBudget | FailedAccept | SkippedEmptyPrompt | Submitted => true
  | _ => false
  end.

Definition archive_path_in (temp_dir job_id : string) : string :=
  temp_dir ++ "/" ++ "seedstr-job-" ++ job_id ++ "-response.zip".

(** GENERATED, PACKAGED, UPLOADED, RESPONDED: how far a job with a prompt
    gets from state [st], and the state it stops in. *)
Inductive submission (self : AgentRunner) (job_id prompt : string) (st : state)
  : terminal -> state -> Prop :=
| generation_fails e st1 :
    generate (llm self) prompt system_prompt_text st = (Raise e, st1) ->
    submission self job_id prompt st (Failed Generation e) st1
| tempdir_fails r st1 e st2 :
    generate (llm self) prompt system_prompt_text st = (Ok r, st1) ->
    invoke (MkdtempCall ("seedstr-" ++ job_id ++ "-"))
      (mkdtemp ("seedstr-" ++ job_id ++ "-")) st1 = (Raise e, st2) ->
    submission self job_id prompt st (Failed Packaging e) st2
| packaging_fails r st1 temp_dir st2 e st3 :
    generate (llm self) prompt system_prompt_text st = (Ok r, st1) ->
    invoke (MkdtempCall ("seedstr-" ++ job_id ++ "-"))
      (mkdtemp ("seedstr-" ++ job_id ++ "-")) st1 = (Ok temp_dir, st2) ->
    _create_submission_archive (archive_path_in temp_dir job_id) job_id prompt
      (fst r) (snd r) st2 = (Raise e, st3) ->
    submission self job_id prompt st (Failed Packaging e) st3
| upload_fails r st1 temp_dir st2 st3 e st4 :
    generate (llm self) prompt system_prompt_text st = (Ok r, st1) ->
    invoke (MkdtempCall ("seedstr-" ++ job_id ++ "-"))
      (mkdtemp ("seedstr-" ++ job_id ++ "-")) st1 = (Ok temp_dir, st2) ->
    _create_submission_archive (archive_path_in temp_dir job_id) job_id prompt
      (fst r) (snd r) st2 = (Ok tt, st3) ->
    upload_file (api self) (archive_path_in temp_dir job_id) st3 = (Raise e, st4) ->
    submission self job_id prompt st (Failed Upload e) st4
| response_fails r st1 temp_dir st2 st3 upload_result st4 e st5 :
    generate (llm self) prompt system_prompt_text st = (Ok r, st1) ->
    invoke (MkdtempCall ("seedstr-" ++ job_id ++ "-"))
      (mkdtemp ("seedstr-" ++ job_id ++ "-")) st1 = (Ok temp_dir, st2) ->
    _create_submission_archive (archive_path_in temp_dir job_id) job_id prompt
      (fst r) (snd r) st2 = (Ok tt, st3) ->
    upload_file (api self) (archive_path_in temp_dir job_id) st3 = (Ok upload_result, st4) ->
    respond_file_any (api self) job_id upload_result (fst r) st4 = (Raise e, st5) ->
    submission self job_id prompt st (Failed Response e) st5
| response_accepted r st1 temp_dir st2 st3 upload_result st4 data st5 :
    generate (llm self) prompt system_prompt_text st = (Ok r, st1) ->
    invoke (MkdtempCall ("seedstr-" ++ job_id ++ "-"))
      (mkdtemp ("seedstr-" ++ job_id ++ "-")) st1 = (Ok temp_dir, st2) ->
    _create_submission_archive (archive_path_in temp_dir job_id) job_id prompt
      (fst r) (snd r) st2 = (Ok tt, st3) ->
    upload_file (api self) (archive_path_in temp_dir job_id) st3 = (Ok upload_result, st4) ->
    respond_file_any (api self) job_id upload_result (fst r) st4 = (Ok data, st5) ->
    submission self job_id prompt st Submitted st5.

(** BUDGET-CHECKED and ACCEPT-ATTEMPTED passed: the job is new, has an id
    and enough budget, and was accepted if it is a SWARM job; [st1] is the
    state after the accept call. *)
Definition eligible (self : AgentRunner) (job : dict) (st st1 : state) : Prop :=
  job_id_of job <> ""
  /\ str_in (job_id_of job) (_seen_jobs st) = false
  /\ (exists budget,
        _effective_budget job = Ok budget
        /\ SFltb budget (min_budget_usd (settings self)) = false)
  /\ ((job_type_of job <> "SWARM" /\ st1 = st)
      \/ (job_type_of job = "SWARM"
          /\ exists data, accept_job (api self) (job_id_of job) st = (Ok data, st1))).

(** The terminal state a job reaches from [st], and the state of the run
    just before the store is (or is not) updated. *)
Inductive run_job (self : AgentRunner) (job : dict) (st : state)
  : terminal -> state -> Prop :=
| run_no_id :
    job_id_of job = "" ->
    run_job self job st SkippedNoId st
| run_already_seen :
    job_id_of job <> "" ->
    str_in (job_id_of job) (_seen_jobs st) = true ->
    run_job self job st SkippedAlreadySeen st
| run_budget_raises e :
    job_id_of job <> "" ->
    str_in (job_id_of job) (_seen_jobs st) = false ->
    _effective_budget job = Raise e ->
    run_job self job st (Crashed e) st
| run_under_budget budget :
    job_id_of job <> "" ->
    str_in (job_id_of job) (_seen_jobs st) = false ->
    _effective_budget job = Ok budget ->
    SFltb budget (min_budget_usd (settings self)) = true ->
    run_job self job st SkippedUnderBudget st
| run_accept_rejected budget m st1 :
    job_id_of job <> "" ->
    str_in (job_id_of job) (_seen_jobs st) = false ->
    _effective_budget job = Ok budget ->
    SFltb budget (min_budget_usd (settings self)) = false ->
    job_type_of job = "SWARM" ->
    accept_job (api self) (job_id_of job) st = (Raise (SeedstrApiError m), st1) ->
    run_job self job st FailedAccept st1
| run_accept_raises budget e st1 :
    job_id_of job <> "" ->
    str_in (job_id_of job) (_seen_jobs st) = false ->
    _effective_budget job = Ok budget ->
    SFltb budget (min_budget_usd (settings self)) = false ->
    job_type_of job = "SWARM" ->
    accept_job (api self) (job_id_of job) st = (Raise e, st1) ->
    is_api_error e = false ->
    run_job self job st (Crashed e) st1
| run_empty_prompt st1 :
    eligible self job st st1 ->
    prompt_of job = "" ->
    run_job self job st SkippedEmptyPrompt st1
| run_submission st1 t st2 :
    eligible self job st st1 ->
    prompt_of job <> "" ->
    submission self (job_id_of job) (prompt_of job) st1 t st2 ->
    run_job self job st t st2.

(** The result [_process_job] returns in a terminal state. *)
Definition returned (t : terminal) : result unit :=
  match t with
  | Crashed e => Raise e
  | _ => Ok tt
  end.

(** [m] leaves the store and the state file alone. *)
Definition keeps_store {A} (m : M A) : Prop :=
  forall st,
    _seen_jobs (snd (m st)) = _seen_jobs st
    /\ state_file (snd (m st)) = state_file st.

End Agent.

(** * Properties *)

Section Properties.
Context `{Builtins} `{World}.

(** ** Generalities on the monad and on [_request] *)

Lemma fold_left_push_all {A B} (f : B -> list A) (xs : list B) (acc : list A) :
  fold_left (fun acc x => (acc ++ f x)%list) xs acc = (acc ++ flat_map f xs)%list.
Proof.
  revert acc; induction xs as [|x xs IH]; intros acc; simpl.
  - now rewrite app_nil_r.
  - now rewrite IH, app_assoc.
Qed.

Lemma invoke_calls {A} (c : call) (f : W -> result A * W) (st : state) :
  calls (snd (invoke c f st)) = (calls st ++ [c])%list
  /\ _seen_jobs (snd (invoke c f st)) = _seen_jobs st
  /\ state_file (snd (invoke c f st)) = state_file st.
Proof.
  unfold invoke. destruct (f (world st)); simpl. auto.
Qed.

(** [_request] makes exactly one HTTP call and touches nothing else of the
    runner's state. *)
Lemma _request_frame (self : SeedstrApiClient) (method endpoint : string)
    (payload : option json) (st : state) :
  calls (snd (_request self method endpoint payload st))
  = (calls st ++ [HttpCall method (base_url self ++ endpoint) payload])%list
  /\ _seen_jobs (snd (_request self method endpoint payload st)) = _seen_jobs st
  /\ state_file (snd (_request self method endpoint payload st)) = state_file st.
Proof.
  unfold _request, bind.
  match goal with |- context [invoke ?c ?f st] =>
    pose proof (invoke_calls c f st) as Hi; destruct (invoke c f st) as [r st1] end.
  simpl in Hi.
  destruct r as [resp|e]; simpl; [|exact Hi].
  destruct (resp_json resp) as [data|]; [|exact Hi].
  destruct (resp_ok resp); [exact Hi|].
  destruct data; exact Hi.
Qed.

(** ** The submission negotiator *)

Lemma respond_file_attempts_order (upload_result : dict) (fallback_text : string) :
  respond_file_attempts upload_result fallback_text
  = attempt_order (_extract_upload_file_candidates upload_result)
      (_extract_upload_reference_strings upload_result) fallback_text.
Proof.
  unfold respond_file_attempts, attempt_order.
  rewrite (fold_left_push_all reference_attempts).
  destruct (_extract_upload_file_candidates upload_result) as [|d [|d' l]];
    simpl; reflexivity.
Qed.

Lemma all_rejected_last self endpoint attempts st last st' last' :
  all_rejected self endpoint attempts st last st' last' ->
  attempts <> [] -> exists m, last' = Some (SeedstrApiError m).
Proof.
  induction 1 as [|payload rest st last m st1 st2 last2 Hreq Hrest IH]; intros Hne.
  - contradiction.
  - destruct rest as [|p' rest'].
    + inversion Hrest; subst. now exists m.
    + apply IH. discriminate.
Qed.

Lemma all_rejected_calls self endpoint attempts st last st' last' :
  all_rejected self endpoint attempts st last st' last' ->
  calls st' = (calls st ++ map (sent self endpoint) attempts)%list.
Proof.
  induction 1 as [|payload rest st last m st1 st2 last2 Hreq Hrest IH]; simpl.
  - now rewrite app_nil_r.
  - rewrite IH.
    pose proof (_request_frame self "POST" endpoint (Some payload) st) as [Hc _].
    rewrite Hreq in Hc. simpl in Hc. rewrite Hc, <- app_assoc. reflexivity.
Qed.

Lemma all_rejected_app self endpoint pre post st last st1 last1 st2 last2 :
  all_rejected self endpoint pre st last st1 last1 ->
  all_rejected self endpoint post st1 last1 st2 last2 ->
  all_rejected self endpoint (pre ++ post) st last st2 last2.
Proof.
  induction 1; intros Hpost; simpl; [assumption|].
  econstructor; eauto.
Qed.

Lemma respond_file_loop_spec self job_id endpoint attempts last st :
  (exists pre payload post st1 last1 r st',
      attempts = (pre ++ payload :: post)%list
      /\ all_rejected self endpoint pre st last st1 last1
      /\ _request self "POST" endpoint (Some payload) st1 = (r, st')
      /\ (forall m, r <> Raise (SeedstrApiError m))
      /\ respond_file_loop self job_id endpoint attempts last st = (r, st'))
  \/
  (exists st' last',
      all_rejected self endpoint attempts st last st' last'
      /\ respond_file_loop self job_id endpoint attempts last st
         = (Raise (SeedstrApiError (exhausted_message job_id last')), st')).
Proof.
  revert last st; induction attempts as [|payload rest IH]; intros last st.
  - right. exists st, last. split; [constructor|reflexivity].
  - simpl. unfold try_except.
    destruct (_request self "POST" endpoint (Some payload) st) as [r st1] eqn:Hreq.
    destruct r as [data|e].
    + left. exists [], payload, rest, st, last, (Ok data), st1.
      repeat split; try constructor; auto. intros m; discriminate.
    + destruct e as [m| | | | | |];
        try (left; exists [], payload, rest, st, last; eexists; exists st1;
             repeat split; [constructor | exact Hreq | intros m'; discriminate]).
      simpl.
      destruct (IH (Some (SeedstrApiError m)) st1)
        as [(pre & p & post & st2 & last2 & r & st' & Heq & Hrej & Hr & Hne & Hloop)
           |(st' & last' & Hrej & Hloop)].
      * left. exists (payload :: pre), p, post, st2, last2, r, st'.
        repeat split; auto.
        -- simpl. now rewrite Heq.
        -- econstructor; eauto.
      * right. exists st', last'. split; [econstructor; eauto | exact Hloop].
Qed.

(** C1. [respond_file] tries the payloads in the order: descriptors as a
    list, the single descriptor as an object, five shapes per reference
    string, then the plain text fallback.  Its outcome is that of the first
    request that does not raise a [SeedstrApiError], and no request follows
    it; when every request raises one, it raises a [SeedstrApiError] whose
    message names the job and ends with the text of the last error.  The
    requests logged are the attempts made, in this order. *)
Theorem respond_file_first_accepted (self : SeedstrApiClient) (job_id : string)
    (upload_result : dict) (fallback_text : string) (st : state) :
  let endpoint := "/jobs/" ++ job_id ++ "/respond" in
  let attempts :=
    attempt_order (_extract_upload_file_candidates upload_result)
      (_extract_upload_reference_strings upload_result) fallback_text in
  (exists pre payload post st1 last1 r st',
      attempts = (pre ++ payload :: post)%list
      /\ all_rejected self endpoint pre st None st1 last1
      /\ _request self "POST" endpoint (Some payload) st1 = (r, st')
      /\ (forall m, r <> Raise (SeedstrApiError m))
      /\ respond_file self job_id upload_result fallback_text st = (r, st')
      /\ calls st' = (calls st ++ map (sent self endpoint) (pre ++ [payload]))%list)
  \/
  (exists st' m,
      all_rejected self endpoint attempts st None st' (Some (SeedstrApiError m))
      /\ respond_file self job_id upload_result fallback_text st
         = (Raise (SeedstrApiError
                     ("Failed to submit file response for job " ++ job_id ++ ": " ++ m)),
            st')
      /\ calls st' = (calls st ++ map (sent self endpoint) attempts)%list).
Proof.
  intros endpoint attempts. unfold respond_file.
  rewrite respond_file_attempts_order. fold endpoint attempts.
  destruct (respond_file_loop_spec self job_id endpoint attempts None st)
    as [(pre & payload & post & st1 & last1 & r & st' & Heq & Hrej & Hreq & Hne & Hloop)
       |(st' & last' & Hrej & Hloop)].
  - left. exists pre, payload, post, st1, last1, r, st'.
    repeat split; auto.
    pose proof (_request_frame self "POST" endpoint (Some payload) st1) as [Hc _].
    rewrite Hreq in Hc. simpl in Hc.
    rewrite Hc, (all_rejected_calls _ _ _ _ _ _ _ Hrej), map_app, <- app_assoc.
    reflexivity.
  - right. destruct (all_rejected_last _ _ _ _ _ _ _ Hrej) as [m ->].
    + unfold attempts, attempt_order.
      destruct (descriptor_attempts _); simpl; [|discriminate].
      destruct (flat_map _ _); discriminate.
    + exists st', m. split; [exact Hrej|]. split; [exact Hloop|].
      apply (all_rejected_calls _ _ _ _ _ _ _ Hrej).
Qed.

(** C10. When the upload result yields no descriptor and no reference
    string, the attempt list is the text fallback alone: [respond_file]
    makes that one request and no other, and returns its data when the
    request succeeds. *)
Theorem respond_file_text_only (self : SeedstrApiClient) (job_id : string)
    (upload_result : dict) (fallback_text : string) (st : state) :
  _extract_upload_file_candidates upload_result = [] ->
  _extract_upload_reference_strings upload_result = [] ->
  let endpoint := "/jobs/" ++ job_id ++ "/respond" in
  let payload := JObj [("responseType", JStr "TEXT"); ("content", JStr fallback_text)] in
  respond_file_attempts upload_result fallback_text = [payload]
  /\ snd (respond_file self job_id upload_result fallback_text st)
     = snd (_request self "POST" endpoint (Some payload) st)
  /\ calls (snd (respond_file self job_id upload_result fallback_text st))
     = (calls st ++ [HttpCall "POST" (base_url self ++ endpoint) (Some payload)])%list
  /\ (forall data,
        fst (_request self "POST" endpoint (Some payload) st) = Ok data ->
        fst (respond_file self job_id upload_result fallback_text st) = Ok data).
Proof.
  intros Hfiles Hrefs endpoint payload.
  assert (Hatt : respond_file_attempts upload_result fallback_text = [payload]).
  { rewrite respond_file_attempts_order, Hfiles, Hrefs. reflexivity. }
  assert (Hsnd : snd (respond_file self job_id upload_result fallback_text st)
                 = snd (_request self "POST" endpoint (Some payload) st)).
  { unfold respond_file. rewrite Hatt. cbn [respond_file_loop]. unfold try_except.
    fold endpoint.
    destruct (_request self "POST" endpoint (Some payload) st) as [[data|e] st1];
      simpl; [reflexivity|]. destruct (is_api_error e); reflexivity. }
  repeat split.
  - exact Hatt.
  - exact Hsnd.
  - rewrite Hsnd. apply _request_frame.
  - intros data Hok. unfold respond_file. rewrite Hatt. cbn [respond_file_loop].
    unfold try_except. fold endpoint.
    destruct (_request self "POST" endpoint (Some payload) st) as [[d|e] st1];
      simpl in *; [exact Hok | discriminate].
Qed.

(** ** The model failover client *)

Lemma generate_loop_skips self prompt system_prompt pre st reasons st1 :
  all_failed self prompt system_prompt pre st reasons st1 ->
  forall rest errors,
    generate_loop self prompt system_prompt (pre ++ rest) errors st
    = generate_loop self prompt system_prompt rest (errors ++ reasons)%list st1.
Proof.
  induction 1 as [st|target pre st reason st1 reasons st2 Hfail Hrest IH];
    intros rest errors.
  - now rewrite app_nil_r.
  - cbn [app generate_loop].
    destruct Hfail as [exc st' Hcall|text st' Hcall Hblank]; rewrite Hcall.
    + rewrite IH. unfold push. now rewrite <- app_assoc.
    + rewrite Hblank. cbn [str_truthy]. rewrite IH. unfold push.
      now rewrite <- app_assoc.
Qed.

Lemma all_failed_reasons self prompt system_prompt targets st reasons st' :
  all_failed self prompt system_prompt targets st reasons st' ->
  Forall2
    (fun target reason =>
       reason = target_label target ++ " returned empty output"
       \/ exists exc, reason = target_label target ++ " failed: " ++ exn_str exc)
    targets reasons.
Proof.
  induction 1 as [st|target rest st reason st1 reasons st2 Hfail Hrest IH];
    constructor; [|exact IH].
  destruct Hfail; [right; eauto | left; reflexivity].
Qed.

(** C2. [generate] walks the target list in order; a target whose provider
    call raises or returns only whitespace is skipped; at the first target
    whose text is non-empty once stripped, [generate] returns the stripped
    text with the label [provider:model] of that target, in the state right
    after that provider call, so that no later target is called. *)
Theorem generate_first_success (self : LLMFailoverClient)
    (prompt system_prompt : string) (st : state)
    (pre : list ModelTarget) (target : ModelTarget) (post : list ModelTarget)
    (reasons : list string) (st1 : state) (text : string) (st' : state) :
  targets self = (pre ++ target :: post)%list ->
  all_failed self prompt system_prompt pre st reasons st1 ->
  provider_call self target prompt system_prompt st1 = (Ok text, st') ->
  strip text <> "" ->
  generate self prompt system_prompt st
  = (Ok (strip text, provider target ++ ":" ++ model target), st').
Proof.
  intros Htargets Hpre Hcall Hfull. unfold generate. rewrite Htargets.
  rewrite (generate_loop_skips _ _ _ _ _ _ _ Hpre). cbn [generate_loop].
  rewrite Hcall. destruct (strip text); [contradiction|reflexivity].
Qed.

(** C3. When every target raises or returns only whitespace, [generate]
    raises an error whose message is a fixed prefix followed by the failure
    lines of all targets, one per target and in the order of the attempts,
    joined with [ | ]. *)
Theorem generate_exhausted (self : LLMFailoverClient)
    (prompt system_prompt : string) (st : state)
    (reasons : list string) (st' : state) :
  all_failed self prompt system_prompt (targets self) st reasons st' ->
  generate self prompt system_prompt st
  = (Raise (RuntimeError ("All configured models failed. " ++ join " | " reasons)), st')
  /\ Forall2
       (fun target reason =>
          reason = target_label target ++ " returned empty output"
          \/ exists exc, reason = target_label target ++ " failed: " ++ exn_str exc)
       (targets self) reasons.
Proof.
  intros Hall. split; [|exact (all_failed_reasons _ _ _ _ _ _ _ Hall)].
  unfold generate.
  rewrite <- (app_nil_r (targets self)).
  rewrite (generate_loop_skips _ _ _ _ _ _ _ Hall). reflexivity.
Qed.

(** [generate] always ends in one of the two ways above. *)
Lemma generate_total (self : LLMFailoverClient) (prompt system_prompt : string)
    (st : state) :
  (exists pre target post reasons st1 text st',
      targets self = (pre ++ target :: post)%list
      /\ all_failed self prompt system_prompt pre st reasons st1
      /\ provider_call self target prompt system_prompt st1 = (Ok text, st')
      /\ strip text <> "")
  \/ (exists reasons st', all_failed self prompt system_prompt (targets self) st reasons st').
Proof.
  generalize (targets self) as ts. intros ts; revert st.
  induction ts as [|target rest IH]; intros st.
  - right. exists [], st. constructor.
  - destruct (provider_call self target prompt system_prompt st) as [[text|exc] st1] eqn:Hcall.
    + destruct (strip text) eqn:Hstrip.
      * destruct (IH st1)
          as [(pre & t & post & reasons & st2 & text' & st' & Heq & Hpre & Hc & Hne)
             |(reasons & st' & Hall)].
        -- left. exists (target :: pre), t, post. do 4 eexists.
           split; [simpl; now rewrite Heq|]. split; [|eauto].
           econstructor; [eapply fails_blank; eauto | exact Hpre].
        -- right. do 2 eexists.
           econstructor; [eapply fails_blank; eauto | exact Hall].
      * left. exists [], target, rest, [], st, text, st1.
        repeat split; try constructor; auto. rewrite Hstrip. discriminate.
    + destruct (IH st1)
        as [(pre & t & post & reasons & st2 & text' & st' & Heq & Hpre & Hc & Hne)
           |(reasons & st' & Hall)].
      * left. exists (target :: pre), t, post. do 4 eexists.
        split; [simpl; now rewrite Heq|]. split; [|eauto].
        econstructor; [eapply fails_raise; eauto | exact Hpre].
      * right. do 2 eexists.
        econstructor; [eapply fails_raise; eauto | exact Hall].
Qed.

Lemma enabled_truthy (api_key : string) (models : list string) :
  str_truthy api_key && list_truthy models = enabled api_key models.
Proof. destruct api_key, models; reflexivity. Qed.

Lemma enabled_nil (api_key : string) : enabled api_key [] = false.
Proof. unfold enabled. apply andb_false_r. Qed.

(** C9. Construction raises its configuration error exactly when neither
    provider is enabled; otherwise it succeeds, and the target list is the
    Gemini targets of an enabled Gemini provider, in configured order,
    followed by the OpenAI targets of an enabled OpenAI provider, in
    configured order. *)
Theorem init_enabled_providers (gemini_api_key openai_api_key : string)
    (gemini_models openai_models : list string) :
  let combined :=
    ((if enabled gemini_api_key gemini_models
      then map (mkTarget "gemini") gemini_models else []) ++
     (if enabled openai_api_key openai_models
      then map (mkTarget "openai") openai_models else []))%list in
  ((exists e, LLMFailoverClient_init gemini_api_key openai_api_key
                gemini_models openai_models = Raise e)
   <-> enabled gemini_api_key gemini_models = false
       /\ enabled openai_api_key openai_models = false)
  /\ LLMFailoverClient_init gemini_api_key openai_api_key gemini_models openai_models
     = if enabled gemini_api_key gemini_models || enabled openai_api_key openai_models
       then Ok (mkLLM combined
                  (enabled gemini_api_key gemini_models)
                  (enabled openai_api_key openai_models)
                  (if enabled openai_api_key openai_models
                   then Some openai_api_key else None))
       else Raise (ValueError
                     "No LLM models configured. Set GEMINI_API_KEY/OPENAI_API_KEY with model lists.").
Proof.
  intros combined.
  assert (Hinit :
    LLMFailoverClient_init gemini_api_key openai_api_key gemini_models openai_models
    = if enabled gemini_api_key gemini_models || enabled openai_api_key openai_models
      then Ok (mkLLM combined
                 (enabled gemini_api_key gemini_models)
                 (enabled openai_api_key openai_models)
                 (if enabled openai_api_key openai_models
                  then Some openai_api_key else None))
      else Raise (ValueError
                    "No LLM models configured. Set GEMINI_API_KEY/OPENAI_API_KEY with model lists.")).
  { unfold LLMFailoverClient_init, combined. rewrite !enabled_truthy.
    destruct (enabled gemini_api_key gemini_models) eqn:Eg,
             (enabled openai_api_key openai_models) eqn:Eo; simpl.
    - destruct gemini_models; [now rewrite enabled_nil in Eg|reflexivity].
    - destruct gemini_models; [now rewrite enabled_nil in Eg|].
      simpl. now rewrite app_nil_r.
    - destruct openai_models; [now rewrite enabled_nil in Eo|reflexivity].
    - reflexivity. }
  split; [|exact Hinit].
  rewrite Hinit.
  destruct (enabled gemini_api_key gemini_models),
           (enabled openai_api_key openai_models); simpl; split;
    try (intros [e He]; discriminate); try (intros [? ?]; discriminate);
    try (intros _; eauto).
Qed.

(** ** The effective budget *)

Lemma py_float_overflow_int (v : json) (m : string) :
  py_float v = Raise (OverflowError m) -> exists z, v = JInt z.
Proof.
  destruct v as [|b|z|f|str|l|d]; simpl; try discriminate.
  - eauto.
  - destruct (float_of_str str); discriminate.
Qed.

Lemma py_float_raises (v : json) (e : exn) :
  py_float v = Raise e ->
  (exists m, e = TypeError m) \/ (exists m, e = ValueError m)
  \/ (exists m, e = OverflowError m).
Proof.
  destruct v as [|b|z|f|str|l|d]; simpl; intros Hv;
    try (injection Hv as <-; eauto); try discriminate.
  - unfold float_of_int in Hv.
    destruct (binary_normalize 53 1024 z 0 false); try discriminate.
    injection Hv as <-. eauto.
  - destruct (float_of_str str); [discriminate|]. injection Hv as <-. eauto.
Qed.

Lemma _effective_budget_source (job : dict) :
  _effective_budget job = float_or_zero (budget_source job).
Proof.
  unfold _effective_budget, budget_source.
  destruct (eq_str (get job "jobType") "SWARM"); [|reflexivity].
  destruct (get job "budgetPerAgent"); reflexivity.
Qed.

(** C5, as the code has it.  The effective budget is the coercion of
    [budgetPerAgent] for a SWARM job that carries a non-null one, and of
    [budget] (0 when absent) for every other job, a SWARM job without
    [budgetPerAgent] included; when the coercion fails without overflowing,
    which is the case of every non-numeric value, the result is 0 and
    nothing is raised. *)
Theorem effective_budget_coerces_source (job : dict) :
  (forall m, py_float (budget_source job) <> Raise (OverflowError m)) ->
  _effective_budget job
  = Ok (match py_float (budget_source job) with
        | Ok f => f
        | Raise _ => float_zero
        end).
Proof.
  intros Hno. rewrite _effective_budget_source. unfold float_or_zero.
  destruct (py_float (budget_source job)) as [f|e] eqn:Hf; [reflexivity|].
  destruct (py_float_raises _ _ Hf) as [[m ->]|[[m ->]|[m ->]]]; try reflexivity.
  exfalso. eapply Hno. reflexivity.
Qed.

(** ** The seen-job store *)

Lemma last_n_length {A} (n : nat) (xs : list A) :
  List.length (last_n n xs) <= n.
Proof. unfold last_n. rewrite length_skipn. lia. Qed.

Lemma last_n_incl {A} (n : nat) (xs : list A) (x : A) :
  In x (last_n n xs) -> In x xs.
Proof.
  unfold last_n. intros Hin.
  rewrite <- (firstn_skipn (List.length xs - n) xs). apply in_or_app. now right.
Qed.

Lemma str_in_In (x : string) (xs : list string) : str_in x xs = true <-> In x xs.
Proof.
  unfold str_in. rewrite existsb_exists. split.
  - intros (y & Hy & Heq). apply String.eqb_eq in Heq. now subst.
  - intros Hin. exists x. split; [assumption|apply String.eqb_refl].
Qed.

(** What [_mark_seen] leaves behind: the id is in the in-memory set, and
    the file holds the last 1000 ids of the set in its iteration order,
    whatever that order is. *)
Lemma _mark_seen_spec (self : AgentRunner) (job_id : string) (st : state) :
  _mark_seen self job_id st
  = (Ok tt,
     mkState (world st) (calls st) (set_add job_id (_seen_jobs st))
       (Doc (JObj [("seen_jobs",
                    JList (map JStr (last_n 1000
                                       (set_iter (set_add job_id (_seen_jobs st))))))]))).
Proof. reflexivity. Qed.

(** The part of C4 that holds for every iteration order: after a persist
    the array has at most 1000 entries, each the id of a job of the set. *)
Lemma persisted_at_most_cap (self : AgentRunner) (job_id : string) (st : state) :
  let st' := snd (_mark_seen self job_id st) in
  List.length (persisted (state_file st')) <= 1000
  /\ forall v, In v (persisted (state_file st')) ->
       exists id, v = JStr id /\ In id (_seen_jobs st').
Proof.
  rewrite _mark_seen_spec. cbn [snd state_file persisted _seen_jobs]. split.
  - rewrite length_map. apply last_n_length.
  - intros v Hin. apply in_map_iff in Hin. destruct Hin as (id & <- & Hid).
    exists id. split; [reflexivity|].
    apply last_n_incl in Hid.
    eapply Permutation_in; [apply set_iter_perm | exact Hid].
Qed.

(** ** The pipeline: jobs already seen *)

(** C7. A job whose id is in the store is dropped at once: [_process_job]
    returns without touching the state, so that the call log (no accept,
    upload, respond or model call), the store and the state file are as
    before. *)
Theorem seen_job_is_skipped (self : AgentRunner) (job : dict) (st : state) :
  str_in (py_str (get_default job "id" (JStr ""))) (_seen_jobs st) = true ->
  _process_job self job st = (Ok tt, st).
Proof.
  intros Hseen. unfold _process_job.
  destruct (negb (str_truthy (py_str (get_default job "id" (JStr ""))))); [reflexivity|].
  now rewrite Hseen.
Qed.

(** ** The pipeline: which terminal states mark the job as seen *)

Lemma keeps_ret {A} (a : A) : keeps_store (ret a).
Proof. intros st; split; reflexivity. Qed.

Lemma keeps_raise {A} (e : exn) : keeps_store (@raise _ A e).
Proof. intros st; split; reflexivity. Qed.

Lemma keeps_invoke {A} (c : call) (f : W -> result A * W) : keeps_store (invoke c f).
Proof. intros st. apply invoke_calls. Qed.

Lemma keeps_bind {A B} (m : M A) (k : A -> M B) :
  keeps_store m -> (forall a, keeps_store (k a)) -> keeps_store (bind m k).
Proof.
  intros Hm Hk st. unfold bind. specialize (Hm st).
  destruct (m st) as [[a|e] st1]; simpl in Hm.
  - destruct (Hk a st1) as [Hs Hf]. rewrite Hs, Hf. exact Hm.
  - exact Hm.
Qed.

Lemma keeps_try_except {A} (m : M A) (handles : exn -> bool) (h : exn -> M A) :
  keeps_store m -> (forall e, keeps_store (h e)) -> keeps_store (try_except m handles h).
Proof.
  intros Hm Hh st. unfold try_except. specialize (Hm st).
  destruct (m st) as [[a|e] st1]; simpl in Hm; [exact Hm|].
  destruct (handles e); [|exact Hm].
  destruct (Hh e st1) as [Hs Hf]. rewrite Hs, Hf. exact Hm.
Qed.

Lemma keeps_request self method endpoint payload :
  keeps_store (_request self method endpoint payload).
Proof. intros st. apply _request_frame. Qed.

Lemma keeps_respond_file_loop self job_id endpoint attempts last :
  keeps_store (respond_file_loop self job_id endpoint attempts last).
Proof.
  revert last; induction attempts as [|payload rest IH]; intros last.
  - apply keeps_raise.
  - cbn [respond_file_loop]. apply keeps_try_except.
    + apply keeps_request.
    + intros e. apply IH.
Qed.

Lemma keeps_respond_file_any self job_id upload_result fallback_text :
  keeps_store (respond_file_any self job_id upload_result fallback_text).
Proof.
  destruct upload_result; try apply keeps_raise.
  apply keeps_respond_file_loop.
Qed.

Lemma keeps_upload_file self file_path : keeps_store (upload_file self file_path).
Proof.
  unfold upload_file. apply keeps_bind; [apply keeps_invoke|].
  intros [encoded|]; [apply keeps_request|apply keeps_raise].
Qed.

Lemma keeps_create_archive archive_path job_id prompt answer model_name :
  keeps_store (_create_submission_archive archive_path job_id prompt answer model_name).
Proof.
  unfold _create_submission_archive. apply keeps_bind; [apply keeps_invoke|].
  intros now. apply keeps_invoke.
Qed.

Lemma keeps_provider_call self target prompt system_prompt :
  keeps_store (provider_call self target prompt system_prompt).
Proof.
  unfold provider_call, _generate_gemini, _generate_openai.
  destruct (String.eqb (provider target) "gemini").
  - apply keeps_bind; [apply keeps_invoke|].
    intros [text|]; [destruct (str_truthy text)|];
      first [apply keeps_ret | apply keeps_raise].
  - destruct (_openai_client self); [|apply keeps_raise].
    apply keeps_bind; [apply keeps_invoke|].
    intros [text|]; [destruct (str_truthy text)|];
      first [apply keeps_ret | apply keeps_raise].
Qed.

Lemma keeps_generate_loop self prompt system_prompt targets errors :
  keeps_store (generate_loop self prompt system_prompt targets errors).
Proof.
  revert errors; induction targets as [|target rest IH]; intros errors.
  - apply keeps_raise.
  - intros st. cbn [generate_loop].
    pose proof (keeps_provider_call self target prompt system_prompt st) as Hp.
    destruct (provider_call self target prompt system_prompt st) as [[text|exc] st1];
      simpl in Hp.
    + destruct (str_truthy (strip text)); [exact Hp|].
      destruct (IH (push errors (target_label target ++ " returned empty output")) st1)
        as [Hs Hf].
      rewrite Hs, Hf. exact Hp.
    + destruct (IH (push errors (target_label target ++ " failed: " ++ exn_str exc)) st1)
        as [Hs Hf].
      rewrite Hs, Hf. exact Hp.
Qed.

Lemma keeps_generate self prompt system_prompt :
  keeps_store (generate self prompt system_prompt).
Proof. apply keeps_generate_loop. Qed.

Lemma keeps_accept_job self job_id : keeps_store (accept_job self job_id).
Proof. apply keeps_request. Qed.

(** A run is its result together with its final state. *)
Lemma run_result {A} (m : M A) (st : state) (r : result A) :
  fst (m st) = r -> m st = (r, snd (m st)).
Proof. intros <-. now destruct (m st). Qed.

(** A step that keeps the store, read off one of its runs. *)
Lemma keeps_run {A} (m : M A) (st : state) (r : result A) (st' : state) :
  keeps_store m -> m st = (r, st') ->
  _seen_jobs st' = _seen_jobs st /\ state_file st' = state_file st.
Proof. intros Hm Hrun. specialize (Hm st). now rewrite Hrun in Hm. Qed.

Ltac store_step H :=
  match type of H with
  | ?m ?st = (_, _) =>
      let Hs := fresh "Hseen" in
      let Hf := fresh "Hfile" in
      assert (Hk : keeps_store m)
        by first [ apply keeps_generate | apply keeps_invoke
                 | apply keeps_create_archive | apply keeps_upload_file
                 | apply keeps_respond_file_any | apply keeps_accept_job ];
      destruct (keeps_run m st _ _ Hk H) as [Hs Hf]; clear Hk
  end.

Lemma submission_keeps_store self job_id prompt st t st' :
  submission self job_id prompt st t st' ->
  _seen_jobs st' = _seen_jobs st /\ state_file st' = state_file st.
Proof.
  intros Hsub. destruct Hsub;
    repeat match goal with
           | Hrun : _ _ = (_, _) |- _ => store_step Hrun; clear Hrun
           end;
    split; congruence.
Qed.

Lemma eligible_keeps_store self job st st1 :
  eligible self job st st1 ->
  _seen_jobs st1 = _seen_jobs st /\ state_file st1 = state_file st.
Proof.
  intros (_ & _ & _ & [[_ ->]|[_ [data Hacc]]]); [split; reflexivity|].
  store_step Hacc. split; assumption.
Qed.

(** The [try] block, run from the state in which the job is eligible. *)
Lemma try_block_outcome self job_id prompt st t st' :
  submission self job_id prompt st t st' ->
  try_except (generate_and_submit self job_id prompt) any_exception
    (fun exc => ret tt) st
  = (Ok tt, if marks_seen t then snd (_mark_seen self job_id st') else st').
Proof.
  intros Hsub. unfold try_except, generate_and_submit, package_and_respond, bind.
  fold (archive_path_in).
  destruct Hsub;
    repeat match goal with
           | Hrun : ?m ?st = (_, _) |- context [?m ?st] => rewrite Hrun
           | Hrun : ?m ?st = (_, _) |- _ =>
               unfold archive_path_in in Hrun; rewrite Hrun
           end; reflexivity.
Qed.

Lemma _process_job_unfold (self : AgentRunner) (job : dict) (st : state) :
  _process_job self job st
  = if negb (str_truthy (job_id_of job)) then (Ok tt, st)
    else if str_in (job_id_of job) (_seen_jobs st) then (Ok tt, st)
    else
      match _effective_budget job with
      | Raise e => (Raise e, st)
      | Ok effective_budget =>
          if SFltb effective_budget (min_budget_usd (settings self))
          then _mark_seen self (job_id_of job) st
          else
            match accept_if_swarm self job (job_id_of job) st with
            | (Ok go_on, st1) =>
                if negb go_on then (Ok tt, st1)
                else if negb (str_truthy (prompt_of job))
                     then _mark_seen self (job_id_of job) st1
                     else try_except
                            (generate_and_submit self (job_id_of job) (prompt_of job))
                            any_exception (fun exc => ret tt) st1
            | (Raise e, st1) => (Raise e, st1)
            end
      end.
Proof.
  unfold _process_job, job_id_of, prompt_of, bind.
  destruct (negb (str_truthy _)); [reflexivity|].
  destruct (str_in _ _); [reflexivity|].
  destruct (_effective_budget job); [|reflexivity].
  destruct (SFltb _ _); [reflexivity|].
  destruct (accept_if_swarm _ _ _ st) as [[go_on|e] st1]; [|reflexivity].
  destruct go_on; cbn [negb]; [|reflexivity].
  destruct (negb (str_truthy _)); reflexivity.
Qed.

Lemma str_truthy_nonempty (s : string) : s <> "" -> negb (str_truthy s) = false.
Proof. destruct s; [contradiction|reflexivity]. Qed.

Lemma accept_step_eligible self job st st1 :
  eligible self job st st1 ->
  accept_if_swarm self job (job_id_of job) st = (Ok true, st1).
Proof.
  intros (_ & _ & _ & Hacc). unfold accept_if_swarm. fold (job_type_of job).
  destruct Hacc as [[Htype ->]|[Htype [data Hacc]]].
  - apply String.eqb_neq in Htype. now rewrite Htype.
  - rewrite Htype, String.eqb_refl.
    unfold try_except, bind. now rewrite Hacc.
Qed.

Lemma accept_step_raises self job st e st1 :
  job_type_of job = "SWARM" ->
  accept_job (api self) (job_id_of job) st = (Raise e, st1) ->
  accept_if_swarm self job (job_id_of job) st
  = if is_api_error e
    then (Ok false, snd (_mark_seen self (job_id_of job) st1))
    else (Raise e, st1).
Proof.
  intros Htype Hacc. unfold accept_if_swarm. fold (job_type_of job).
  rewrite Htype, String.eqb_refl. unfold try_except, bind. rewrite Hacc.
  destruct (is_api_error e); reflexivity.
Qed.

Lemma process_job_run (self : AgentRunner) (job : dict) (st : state)
    (t : terminal) (st1 : state) :
  run_job self job st t st1 ->
  _process_job self job st
  = (returned t,
     if marks_seen t then snd (_mark_seen self (job_id_of job) st1) else st1).
Proof.
  intros Hrun. rewrite _process_job_unfold.
  destruct Hrun as
    [Hid | Hid Hseen | e Hid Hseen Hb | b Hid Hseen Hb Hlt
    | b m st1 Hid Hseen Hb Hlt Htype Hacc | b e st1 Hid Hseen Hb Hlt Htype Hacc Hapi
    | st1 Hel Hprompt | st1 t st2 Hel Hprompt Hsub].
  - now rewrite Hid.
  - now rewrite (str_truthy_nonempty _ Hid), Hseen.
  - now rewrite (str_truthy_nonempty _ Hid), Hseen, Hb.
  - now rewrite (str_truthy_nonempty _ Hid), Hseen, Hb, Hlt.
  - rewrite (str_truthy_nonempty _ Hid), Hseen, Hb, Hlt.
    now rewrite (accept_step_raises _ _ _ _ _ Htype Hacc).
  - rewrite (str_truthy_nonempty _ Hid), Hseen, Hb, Hlt.
    rewrite (accept_step_raises _ _ _ _ _ Htype Hacc), Hapi. reflexivity.
  - pose proof (accept_step_eligible _ _ _ _ Hel) as Hacc.
    destruct Hel as (Hid & Hseen & (b & Hb & Hlt) & _).
    rewrite (str_truthy_nonempty _ Hid), Hseen, Hb, Hlt, Hacc, Hprompt.
    reflexivity.
  - pose proof (accept_step_eligible _ _ _ _ Hel) as Hacc.
    destruct Hel as (Hid & Hseen & (b & Hb & Hlt) & _).
    rewrite (str_truthy_nonempty _ Hid), Hseen, Hb, Hlt, Hacc.
    cbn [negb]. rewrite (str_truthy_nonempty _ Hprompt).
    rewrite (try_block_outcome _ _ _ _ _ _ Hsub).
    destruct Hsub; reflexivity.
Qed.

Lemma run_job_keeps_store self job st t st1 :
  run_job self job st t st1 ->
  _seen_jobs st1 = _seen_jobs st /\ state_file st1 = state_file st.
Proof.
  intros Hrun.
  destruct Hrun as
    [Hid | Hid Hseen | e Hid Hseen Hb | b Hid Hseen Hb Hlt
    | b m st1 Hid Hseen Hb Hlt Htype Hacc | b e st1 Hid Hseen Hb Hlt Htype Hacc Hapi
    | st1 Hel Hprompt | st1 t st2 Hel Hprompt Hsub];
    try (split; reflexivity).
  - store_step Hacc. split; assumption.
  - store_step Hacc. split; assumption.
  - eapply eligible_keeps_store; eauto.
  - destruct (eligible_keeps_store _ _ _ _ Hel) as [Hs1 Hf1].
    destruct (submission_keeps_store _ _ _ _ _ _ Hsub) as [Hs2 Hf2].
    split; congruence.
Qed.





Lemma submission_total self job_id prompt st :
  exists t st', submission self job_id prompt st t st'.
Proof.
  destruct (generate (llm self) prompt system_prompt_text st) as [[r|e] st1] eqn:Hgen;
    [|do 2 eexists; eapply generation_fails; eauto].
  destruct (invoke (MkdtempCall ("seedstr-" ++ job_id ++ "-"))
              (mkdtemp ("seedstr-" ++ job_id ++ "-")) st1) as [[temp_dir|e] st2] eqn:Htmp;
    [|do 2 eexists; eapply tempdir_fails; eauto].
  destruct (_create_submission_archive (archive_path_in temp_dir job_id) job_id prompt
              (fst r) (snd r) st2) as [[[]|e] st3] eqn:Hzip;
    [|do 2 eexists; eapply packaging_fails; eauto].
  destruct (upload_file (api self) (archive_path_in temp_dir job_id) st3)
    as [[upload_result|e] st4] eqn:Hup;
    [|do 2 eexists; eapply upload_fails; eauto].
  destruct (respond_file_any (api self) job_id upload_result (fst r) st4)
    as [[data|e] st5] eqn:Hresp.
  - do 2 eexists; eapply response_accepted; eauto.
  - do 2 eexists; eapply response_fails; eauto.
Qed.

(** Every job reaches one of the terminal states. *)
Lemma run_job_total (self : AgentRunner) (job : dict) (st : state) :
  exists t st1, run_job self job st t st1.
Proof.
  destruct (string_dec (job_id_of job) "") as [Hid|Hid];
    [do 2 eexists; apply run_no_id; exact Hid|].
  destruct (str_in (job_id_of job) (_seen_jobs st)) eqn:Hseen;
    [do 2 eexists; apply run_already_seen; assumption|].
  destruct (_effective_budget job) as [b|e] eqn:Hb;
    [|do 2 eexists; eapply run_budget_raises; eauto].
  destruct (SFltb b (min_budget_usd (settings self))) eqn:Hlt;
    [do 2 eexists; eapply run_under_budget; eauto|].
  assert (Hnext : forall st1, eligible self job st st1 ->
                    exists t st2, run_job self job st t st2).
  { intros st1 Hel.
    destruct (string_dec (prompt_of job) "") as [Hp|Hp];
      [do 2 eexists; eapply run_empty_prompt; eauto|].
    destruct (submission_total self (job_id_of job) (prompt_of job) st1)
      as (t & st2 & Hsub).
    do 2 eexists; eapply run_submission; eauto. }
  destruct (string_dec (job_type_of job) "SWARM") as [Htype|Htype].
  - destruct (accept_job (api self) (job_id_of job) st) as [[data|e] st1] eqn:Hacc.
    + apply (Hnext st1). repeat split; eauto.
    + destruct (is_api_error e) eqn:Hapi.
      * destruct e; try discriminate.
        do 2 eexists; eapply run_accept_rejected; eauto.
      * do 2 eexists; eapply run_accept_raises; eauto.
  - apply (Hnext st). repeat split; eauto.
Qed.

(** ** The submission packager *)

Lemma append_assoc (a b c : string) : ((a ++ b) ++ c = a ++ (b ++ c))%string.
Proof. induction a as [|x a IH]; simpl; [reflexivity|now rewrite IH]. Qed.

Lemma length_append (a b : string) :
  String.length (a ++ b) = String.length a + String.length b.
Proof. induction a as [|x a IH]; simpl; [reflexivity|now rewrite IH]. Qed.

(** [rstrip] removes a suffix of whitespace, and all of it. *)
Lemma rstrip_spec (s : string) :
  (exists ws, s = rstrip s ++ ws /\ all_space ws = true)
  /\ ends_with_space (rstrip s) = false.
Proof.
  induction s as [|c s [(ws & Heq & Hws) Hend]]; cbn [rstrip].
  - split; [exists ""; split; reflexivity|reflexivity].
  - destruct (rstrip s) as [|c' r] eqn:Hr.
    + cbn [append] in Heq. subst ws.
      destruct (is_space c) eqn:Hc.
      * split; [|reflexivity]. exists (String c s). split; [reflexivity|].
        unfold all_space in *. cbn [list_ascii_of_string forallb].
        now rewrite Hc.
      * split; [|exact Hc]. exists s. split; [reflexivity|exact Hws].
    + split.
      * exists ws. split; [|exact Hws]. cbn [append]. f_equal. exact Heq.
      * exact Hend.
Qed.

(** The scanner undoes the escape of one character. *)
Lemma scanstring_escape_char (c : ascii) (rest : string) :
  scanstring (escape_char c ++ rest) = prepend c (scanstring rest).
Proof.
  destruct c as [[] [] [] [] [] [] [] []]; reflexivity.
Qed.

Lemma scanstring_escape (s tail : string) :
  scanstring (escape s ++ String dquote tail) = Some (s, tail).
Proof.
  induction s as [|c s IH].
  - reflexivity.
  - cbn [escape]. rewrite append_assoc, scanstring_escape_char, IH. reflexivity.
Qed.

Lemma json_dumps_str_append (s rest : string) :
  json_dumps_str s ++ rest = String dquote (escape s ++ String dquote rest).
Proof. unfold json_dumps_str. cbn [append]. now rewrite append_assoc. Qed.

Lemma skip_ws_lead (lead rest : string) :
  forallb json_ws (list_ascii_of_string lead) = true ->
  skip_ws (lead ++ String dquote rest) = String dquote rest.
Proof.
  induction lead as [|c lead IH]; simpl; [reflexivity|].
  intros Hws. apply andb_prop in Hws. destruct Hws as [Hc Hlead].
  rewrite Hc. now apply IH.
Qed.

(** A dumped string, after any JSON whitespace, parses back. *)
Lemma parse_string_dumps (lead s rest : string) :
  forallb json_ws (list_ascii_of_string lead) = true ->
  parse_string (lead ++ json_dumps_str s ++ rest) = Some (s, rest).
Proof.
  intros Hws. unfold parse_string, expect.
  rewrite json_dumps_str_append, (skip_ws_lead _ _ Hws).
  rewrite Ascii.eqb_refl. apply scanstring_escape.
Qed.

Lemma dumps_items_cons (k v : string) (kv : string * string)
    (d : list (string * string)) :
  dumps_items ((k, v) :: kv :: d)
  = "  " ++ json_dumps_str k ++ ": " ++ json_dumps_str v ++ "," ++ nl ++
    dumps_items (kv :: d).
Proof. destruct kv; reflexivity. Qed.

(** One member, up to the text after its value. *)
Lemma parse_member_step (fuel : nat) (k v rest : string) :
  parse_members (S fuel) ("  " ++ json_dumps_str k ++ ": " ++ json_dumps_str v ++ rest)
  = match skip_ws rest with
    | String c s4 =>
        if Ascii.eqb c ","%char then
          match parse_members fuel s4 with
          | Some more => Some ((k, v) :: more)
          | None => None
          end
        else if Ascii.eqb c "}"%char then
          match skip_ws s4 with
          | EmptyString => Some [(k, v)]
          | _ => None
          end
        else None
    | EmptyString => None
    end.
Proof.
  cbn [parse_members].
  rewrite (parse_string_dumps "  " k _ eq_refl). cbv beta iota.
  change (expect ":"%char (": " ++ json_dumps_str v ++ rest))
    with (Some (" " ++ json_dumps_str v ++ rest)). cbv beta iota.
  rewrite (parse_string_dumps " " v _ eq_refl). reflexivity.
Qed.

Lemma parse_members_newline (fuel : nat) (s : string) :
  parse_members fuel (nl ++ s) = parse_members fuel s.
Proof. destruct fuel; reflexivity. Qed.

Lemma parse_member_last (fuel : nat) (k v : string) :
  parse_members (S fuel)
    ("  " ++ json_dumps_str k ++ ": " ++ json_dumps_str v ++ nl ++ "}")
  = Some [(k, v)].
Proof. rewrite parse_member_step. reflexivity. Qed.

Lemma parse_member_more (fuel : nat) (k v rest : string) :
  parse_members (S fuel)
    ("  " ++ json_dumps_str k ++ ": " ++ json_dumps_str v ++ "," ++ nl ++ rest)
  = match parse_members fuel rest with
    | Some more => Some ((k, v) :: more)
    | None => None
    end.
Proof.
  rewrite parse_member_step.
  change (skip_ws ("," ++ nl ++ rest)) with (String ","%char (nl ++ rest)).
  cbv beta iota. rewrite Ascii.eqb_refl, parse_members_newline. reflexivity.
Qed.

(** The members of a dumped object parse back, given fuel for each. *)
Lemma parse_members_dumps (d : list (string * string)) (fuel : nat) :
  d <> [] -> List.length d <= fuel ->
  parse_members fuel (dumps_items d ++ nl ++ "}") = Some d.
Proof.
  revert fuel; induction d as [|[k v] d IH]; intros fuel Hne Hfuel; [contradiction|].
  destruct fuel as [|fuel]; [simpl in Hfuel; lia|].
  destruct d as [|kv d'].
  - cbn [dumps_items]. rewrite !append_assoc. apply parse_member_last.
  - rewrite dumps_items_cons, !append_assoc, parse_member_more.
    rewrite IH; [reflexivity|discriminate|simpl in Hfuel; simpl; lia].
Qed.

Lemma dumps_items_length (d : list (string * string)) :
  List.length d <= String.length (dumps_items d).
Proof.
  induction d as [|[k v] d IH]; [simpl; lia|].
  destruct d as [|kv d'].
  - cbn [dumps_items]. rewrite length_append.
    cbn [List.length String.length]. lia.
  - rewrite dumps_items_cons. rewrite !length_append.
    cbn [List.length String.length] in *. lia.
Qed.

(** [json.loads(json.dumps(d, indent=2))] gives back the pairs of [d]. *)
Lemma json_loads_dumps (d : list (string * string)) :
  json_loads_str_object (json_dumps_indent2 d) = Some d.
Proof.
  destruct d as [|[k v] d]; [reflexivity|].
  unfold json_dumps_indent2, json_loads_str_object.
  set (items := dumps_items ((k, v) :: d)).
  change (expect "{"%char ("{" ++ nl ++ items ++ nl ++ "}"))
    with (Some (nl ++ items ++ nl ++ "}")).
  cbv beta iota.
  assert (Hstart : exists rest, items = String " "%char (String " "%char (String dquote rest))).
  { unfold items. destruct d as [|kv d'];
      [cbn [dumps_items]|rewrite dumps_items_cons]; eexists; reflexivity. }
  destruct Hstart as [rest Hstart].
  assert (Hskip : skip_ws (nl ++ items ++ nl ++ "}")
                  = String dquote (rest ++ nl ++ "}")).
  { rewrite Hstart. reflexivity. }
  rewrite Hskip. change (Ascii.eqb dquote "}"%char) with false. cbv beta iota.
  rewrite parse_members_newline. apply parse_members_dumps; [discriminate|].
  pose proof (dumps_items_length ((k, v) :: d)) as Hlen. fold items in Hlen.
  rewrite !length_append. lia.
Qed.

Lemma create_archive_calls archive_path job_id prompt answer model_name (st : state) :
  calls (snd (_create_submission_archive archive_path job_id prompt answer model_name st))
  = (calls st ++
     [ClockCall;
      ZipWriteCall archive_path
        (archive_members job_id prompt answer model_name
           (fst (utc_now_isoformat (world st))))])%list.
Proof.
  unfold _create_submission_archive, bind, invoke.
  destruct (utc_now_isoformat (world st)) as [now w1]. cbn [fst snd world calls].
  destruct (zip_write _ _ w1) as [r w2]. cbn [snd calls].
  now rewrite <- app_assoc.
Qed.

(** C8. The archive written for a prompt, an answer and a model label has
    exactly the three members [response.txt], [prompt.txt] and
    [metadata.json]; the answer member is the answer without its trailing
    whitespace, followed by one newline (["all good"] gives
    ["all good\n"]); the metadata member parses as a record whose [job_id]
    and [model] fields are the job id and the model label passed in. *)
Theorem archive_round_trip (archive_path job_id prompt answer model_name : string)
    (st : state) :
  let members :=
    archive_members job_id prompt answer model_name
      (fst (utc_now_isoformat (world st))) in
  calls (snd (_create_submission_archive archive_path job_id prompt answer model_name st))
  = (calls st ++ [ClockCall; ZipWriteCall archive_path members])%list
  /\ map fst members = ["response.txt"; "prompt.txt"; "metadata.json"]
  /\ assoc members "response.txt" = Some (rstrip answer ++ nl)
  /\ (exists ws, answer = rstrip answer ++ ws /\ all_space ws = true)
  /\ ends_with_space (rstrip answer) = false
  /\ rstrip "all good" ++ nl = "all good" ++ nl
  /\ exists text record,
       assoc members "metadata.json" = Some text
       /\ json_loads_str_object text = Some record
       /\ assoc record "job_id" = Some job_id
       /\ assoc record "model" = Some model_name.
Proof.
  intros members. split; [apply create_archive_calls|].
  split; [reflexivity|]. split; [reflexivity|].
  destruct (rstrip_spec answer) as [Hsuffix Hend].
  split; [exact Hsuffix|]. split; [exact Hend|]. split; [reflexivity|].
  eexists. eexists. split; [reflexivity|]. split; [apply json_loads_dumps|].
  split; reflexivity.
Qed.

(** At the cap, the entry a persist drops is the first one in the iteration
    order of the set, whichever id that is. *)
Lemma persist_drops_first_iterated (self : AgentRunner) (job_id : string) (st : state) :
  List.length (set_add job_id (_seen_jobs st)) = 1001 ->
  exists dropped kept,
    set_iter (set_add job_id (_seen_jobs st)) = dropped :: kept
    /\ persisted (state_file (snd (_mark_seen self job_id st))) = map JStr kept.
Proof.
  intros Hlen. rewrite _mark_seen_spec. cbn [snd state_file persisted].
  pose proof (Permutation_length (set_iter_perm (set_add job_id (_seen_jobs st)))) as Hp.
  rewrite Hlen in Hp.
  destruct (set_iter (set_add job_id (_seen_jobs st))) as [|dropped kept];
    [discriminate|].
  exists dropped, kept. split; [reflexivity|].
  unfold last_n. rewrite Hp. reflexivity.
Qed.

(** ** Stripping and splitting *)

Lemma lstrip_head (s : string) : starts_with_space (lstrip s) = false.
Proof.
  induction s as [|c s IH]; [reflexivity|].
  cbn [lstrip]. destruct (is_space c) eqn:Hc; [exact IH|]. simpl. exact Hc.
Qed.

Lemma rstrip_head (s : string) :
  starts_with_space s = false -> starts_with_space (rstrip s) = false.
Proof.
  destruct s as [|c s]; [reflexivity|]. cbn [starts_with_space rstrip]. intros Hc.
  destruct (rstrip s); [rewrite Hc|]; simpl; exact Hc.
Qed.

Lemma lstrip_fixed (s : string) : starts_with_space s = false -> lstrip s = s.
Proof. destruct s as [|c s]; [reflexivity|]. simpl. now intros ->. Qed.

Lemma rstrip_cons (c : ascii) (s : string) :
  rstrip (String c s)
  = match rstrip s with
    | EmptyString => if is_space c then EmptyString else String c EmptyString
    | r => String c r
    end.
Proof. reflexivity. Qed.

Lemma rstrip_fixed (s : string) : ends_with_space s = false -> rstrip s = s.
Proof.
  induction s as [|c s IH]; [reflexivity|].
  destruct s as [|c' s'].
  - simpl. now intros ->.
  - intros Hend. change (ends_with_space (String c' s') = false) in Hend.
    rewrite rstrip_cons, (IH Hend). reflexivity.
Qed.

(** A stripped text neither starts nor ends with whitespace. *)
Lemma strip_clean (s : string) :
  starts_with_space (strip s) = false /\ ends_with_space (strip s) = false.
Proof.
  unfold strip. split.
  - apply rstrip_head, lstrip_head.
  - apply rstrip_spec.
Qed.

Lemma strip_idempotent (s : string) : strip (strip s) = strip s.
Proof.
  destruct (strip_clean s) as [Hhead Hend].
  unfold strip at 1. rewrite (lstrip_fixed _ Hhead). now apply rstrip_fixed.
Qed.

Lemma list_ascii_append (a b : string) :
  list_ascii_of_string (a ++ b)
  = (list_ascii_of_string a ++ list_ascii_of_string b)%list.
Proof. induction a as [|c a IH]; simpl; [reflexivity|now rewrite IH]. Qed.

Lemma char_free_append (c : ascii) (a b : string) :
  char_free c (a ++ b) = char_free c a && char_free c b.
Proof. unfold char_free. now rewrite list_ascii_append, forallb_app. Qed.

Lemma char_free_lstrip (c : ascii) (s : string) :
  char_free c s = true -> char_free c (lstrip s) = true.
Proof.
  induction s as [|x s IH]; [reflexivity|]. intros Hfree. cbn [lstrip].
  destruct (is_space x); [|exact Hfree].
  apply IH. unfold char_free in *. simpl in Hfree.
  now apply andb_prop in Hfree.
Qed.

Lemma char_free_rstrip (c : ascii) (s : string) :
  char_free c s = true -> char_free c (rstrip s) = true.
Proof.
  intros Hfree. destruct (rstrip_spec s) as [(ws & Heq & _) _].
  rewrite Heq, char_free_append in Hfree. now apply andb_prop in Hfree.
Qed.

Lemma char_free_strip (c : ascii) (s : string) :
  char_free c s = true -> char_free c (strip s) = true.
Proof. intros Hfree. now apply char_free_rstrip, char_free_lstrip. Qed.

Lemma split_on_pieces (sep : ascii) (s : string) :
  Forall (fun piece => char_free sep piece = true) (split_on sep s).
Proof.
  induction s as [|c s IH]; cbn [split_on].
  - repeat constructor.
  - destruct (Ascii.eqb c sep) eqn:Hc.
    + constructor; [reflexivity|exact IH].
    + destruct (split_on sep s) as [|piece pieces].
      * constructor; [|constructor]. unfold char_free. simpl. now rewrite Hc.
      * inversion IH as [|? ? Hpiece Hpieces]; subst. constructor; [|exact Hpieces].
        unfold char_free in *. simpl. now rewrite Hc.
Qed.

Lemma split_on_whole (sep : ascii) (m : string) :
  char_free sep m = true -> split_on sep m = [m].
Proof.
  induction m as [|c m IH]; [reflexivity|]. unfold char_free. simpl.
  intros Hfree. apply andb_prop in Hfree. destruct Hfree as [Hc Hm].
  apply negb_true_iff in Hc. rewrite Hc. now rewrite (IH Hm).
Qed.

Lemma split_on_first (sep : ascii) (m rest : string) :
  char_free sep m = true ->
  split_on sep (m ++ String sep rest) = m :: split_on sep rest.
Proof.
  induction m as [|c m IH].
  - intros _. simpl. now rewrite Ascii.eqb_refl.
  - unfold char_free. simpl. intros Hfree. apply andb_prop in Hfree.
    destruct Hfree as [Hc Hm]. apply negb_true_iff in Hc. rewrite Hc.
    now rewrite (IH Hm).
Qed.

Lemma split_on_join (sep : ascii) (ms : list string) :
  ms <> [] ->
  Forall (fun m => char_free sep m = true) ms ->
  split_on sep (join (String sep EmptyString) ms) = ms.
Proof.
  induction ms as [|m ms IH]; [contradiction|]. intros _ Hfree.
  inversion Hfree as [|? ? Hm Hms]; subst.
  destruct ms as [|m' ms'].
  - simpl. now apply split_on_whole.
  - change (join (String sep "") (m :: m' :: ms'))
      with (m ++ String sep (join (String sep "") (m' :: ms'))).
    rewrite (split_on_first _ _ _ Hm), IH; [reflexivity|discriminate|exact Hms].
Qed.

Lemma stripped_items_clean (items : list string) :
  Forall (fun x => x <> "" /\ strip x = x) (stripped_items items).
Proof.
  unfold stripped_items. induction items as [|item items IH]; [constructor|].
  cbn [filter]. destruct (str_truthy (strip item)) eqn:Htruthy; [|exact IH].
  cbn [map]. constructor; [|exact IH]. split.
  - intros Hempty. rewrite Hempty in Htruthy. discriminate.
  - apply strip_idempotent.
Qed.

Lemma stripped_items_fixed (items : list string) :
  Forall (fun x => x <> "" /\ strip x = x) items -> stripped_items items = items.
Proof.
  unfold stripped_items. induction 1 as [|item items [Hne Hstrip] _ IH]; [reflexivity|].
  cbn [filter]. rewrite Hstrip. destruct item; [contradiction|].
  cbn [str_truthy map]. now rewrite Hstrip, IH.
Qed.

Lemma stripped_items_In (items : list string) (x : string) :
  In x (stripped_items items)
  <-> exists item, In item items /\ strip item = x /\ x <> "".
Proof.
  unfold stripped_items. rewrite in_map_iff. split.
  - intros (item & Hx & Hin). apply filter_In in Hin. destruct Hin as [Hin Htruthy].
    exists item. repeat split; auto. intros Hempty. rewrite <- Hx in Hempty.
    rewrite Hempty in Htruthy. discriminate.
  - intros (item & Hin & Hx & Hne). exists item. split; [exact Hx|].
    apply filter_In. split; [exact Hin|]. rewrite Hx. now destruct x.
Qed.

(** X1. Every model name that [_split_models] returns is non-empty, has no
    whitespace at either end and contains no comma. *)
Theorem split_models_clean (raw : string) :
  Forall (fun m => m <> "" /\ strip m = m /\ char_free ","%char m = true)
    (_split_models raw).
Proof.
  unfold _split_models.
  pose proof (stripped_items_clean (split_on ","%char raw)) as Hclean.
  rewrite Forall_forall in *. intros m Hin. destruct (Hclean m Hin) as [Hne Hstrip].
  repeat split; auto.
  apply stripped_items_In in Hin. destruct Hin as (piece & Hpiece & <- & _).
  apply char_free_strip.
  pose proof (split_on_pieces ","%char raw) as Hpieces.
  rewrite Forall_forall in Hpieces. now apply Hpieces.
Qed.

(** X2. Joining clean model names with commas and splitting the text again
    gives the names back, in order. *)
Theorem split_models_join (models : list string) :
  Forall (fun m => m <> "" /\ strip m = m /\ char_free ","%char m = true) models ->
  _split_models (join "," models) = models.
Proof.
  intros Hclean. unfold _split_models.
  destruct models as [|m ms]; [reflexivity|].
  rewrite split_on_join.
  - apply stripped_items_fixed. eapply Forall_impl; [|exact Hclean].
    intros x (Hne & Hstrip & _). now split.
  - discriminate.
  - eapply Forall_impl; [|exact Hclean]. now intros x (_ & _ & Hfree).
Qed.

(** ** The marketplace client: extraction, requests and uploads *)

Lemma str_in_false (x : string) (xs : list string) : str_in x xs = false -> ~ In x xs.
Proof.
  intros Hfalse Hin. apply str_in_In in Hin. rewrite Hin in Hfalse. discriminate.
Qed.

Lemma add_ref_keeps (refs : list string) (value : json) :
  NoDup refs /\ Forall (fun r => r <> "" /\ strip r = r) refs ->
  NoDup (add_ref refs value)
  /\ Forall (fun r => r <> "" /\ strip r = r) (add_ref refs value).
Proof.
  intros [Hnodup Hclean]. unfold add_ref.
  assert (Hadd : forall text,
            NoDup (if str_truthy (strip text) && negb (str_in (strip text) refs)
                   then push refs (strip text) else refs)
            /\ Forall (fun r => r <> "" /\ strip r = r)
                 (if str_truthy (strip text) && negb (str_in (strip text) refs)
                  then push refs (strip text) else refs)).
  { intros text.
    destruct (str_truthy (strip text)) eqn:Htruthy; [|now split].
    destruct (str_in (strip text) refs) eqn:Hin; [now split|]. cbn [andb negb].
    unfold push. split.
    - apply NoDup_app; [exact Hnodup | repeat constructor; intros [] |].
      intros r Hr [<-|[]]. exact (str_in_false _ _ Hin Hr).
    - apply Forall_app. split; [exact Hclean|]. repeat constructor.
      + intros Hempty. rewrite Hempty in Htruthy. discriminate.
      + apply strip_idempotent. }
  destruct value; try apply Hadd. now split.
Qed.

Lemma add_refs_keep (d : dict) (keys : list string) (refs : list string) :
  NoDup refs /\ Forall (fun r => r <> "" /\ strip r = r) refs ->
  NoDup (fold_left (fun refs key => add_ref refs (get d key)) keys refs)
  /\ Forall (fun r => r <> "" /\ strip r = r)
       (fold_left (fun refs key => add_ref refs (get d key)) keys refs).
Proof.
  revert refs; induction keys as [|key keys IH]; intros refs Hrefs; [exact Hrefs|].
  cbn [fold_left]. apply IH. now apply add_ref_keeps.
Qed.

(** X3. The reference strings extracted from an upload result are pairwise
    distinct, none is empty and none has whitespace at either end. *)
Theorem reference_strings_clean (upload_result : dict) :
  NoDup (_extract_upload_reference_strings upload_result)
  /\ Forall (fun r => r <> "" /\ strip r = r)
       (_extract_upload_reference_strings upload_result).
Proof.
  unfold _extract_upload_reference_strings.
  generalize (_extract_upload_file_candidates upload_result) as items.
  assert (Htop : NoDup (fold_left (fun refs key => add_ref refs (get upload_result key))
                          upload_keys [])
                 /\ Forall (fun r => r <> "" /\ strip r = r)
                      (fold_left (fun refs key => add_ref refs (get upload_result key))
                         upload_keys [])).
  { apply add_refs_keep. split; constructor. }
  revert Htop.
  generalize (fold_left (fun refs key => add_ref refs (get upload_result key))
                upload_keys []) as refs.
  intros refs Hrefs items. revert refs Hrefs.
  induction items as [|item items IH]; intros refs Hrefs; [exact Hrefs|].
  cbn [fold_left]. apply IH. now apply add_refs_keep.
Qed.

Lemma attempt_order_length (file_items : list dict) (refs : list string)
    (fallback_text : string) :
  List.length (attempt_order file_items refs fallback_text)
  <= 5 * List.length refs + 3.
Proof.
  unfold attempt_order. rewrite !length_app.
  assert (Hd : List.length (descriptor_attempts file_items) <= 2).
  { destruct file_items as [|d [|d' l]]; simpl; lia. }
  assert (Hr : List.length (flat_map reference_attempts refs) = 5 * List.length refs).
  { induction refs as [|r refs IH]; [reflexivity|].
    cbn [flat_map]. rewrite length_app, IH. simpl. lia. }
  rewrite Hr. simpl. lia.
Qed.

(** X4. [respond_file] always sends at least one request and at most five
    per reference string plus three; all of them are POSTs of a payload to
    the respond endpoint of the job, and nothing else is logged. *)
Theorem respond_file_request_bounds (self : SeedstrApiClient) (job_id : string)
    (upload_result : dict) (fallback_text : string) (st : state) :
  exists payloads,
    calls (snd (respond_file self job_id upload_result fallback_text st))
    = (calls st ++ map (sent self ("/jobs/" ++ job_id ++ "/respond")) payloads)%list
    /\ 1 <= List.length payloads
    /\ List.length payloads
       <= 5 * List.length (_extract_upload_reference_strings upload_result) + 3.
Proof.
  unfold respond_file. rewrite respond_file_attempts_order.
  set (endpoint := "/jobs/" ++ job_id ++ "/respond").
  set (attempts := attempt_order _ _ _).
  pose proof (attempt_order_length (_extract_upload_file_candidates upload_result)
                (_extract_upload_reference_strings upload_result) fallback_text) as Hlen.
  fold attempts in Hlen.
  destruct (respond_file_loop_spec self job_id endpoint attempts None st)
    as [(pre & payload & post & st1 & last1 & r & st' & Heq & Hrej & Hreq & Hne & Hloop)
       |(st' & last' & Hrej & Hloop)]; rewrite Hloop; cbn [snd].
  - exists (pre ++ [payload])%list. split; [|split].
    + pose proof (_request_frame self "POST" endpoint (Some payload) st1) as [Hc _].
      rewrite Hreq in Hc. simpl in Hc.
      rewrite Hc, (all_rejected_calls _ _ _ _ _ _ _ Hrej), map_app, <- app_assoc.
      reflexivity.
    + rewrite length_app. simpl. lia.
    + rewrite Heq in Hlen. rewrite !length_app in *. simpl in *. lia.
  - exists attempts. split; [|split].
    + apply (all_rejected_calls _ _ _ _ _ _ _ Hrej).
    + unfold attempts, attempt_order. rewrite !length_app. simpl. lia.
    + exact Hlen.
Qed.

(** X5. [update_profile] without any field raises its error and sends
    nothing; otherwise it sends one PATCH of [/me] whose payload holds
    exactly the fields given, an empty text included, in the order name,
    bio, profilePicture, and nothing else. *)
Theorem update_profile_fields (self : SeedstrApiClient)
    (name bio profile_picture : option string) (st : state) :
  let payload :=
    (given_field "name" name ++ given_field "bio" bio ++
     given_field "profilePicture" profile_picture)%list in
  match name, bio, profile_picture with
  | None, None, None =>
      update_profile self name bio profile_picture st
      = (Raise (SeedstrApiError "No profile fields provided"), st)
  | _, _, _ =>
      update_profile self name bio profile_picture st
      = _request self "PATCH" "/me" (Some (JObj payload)) st
      /\ calls (snd (update_profile self name bio profile_picture st))
         = (calls st ++
            [HttpCall "PATCH" (base_url self ++ "/me") (Some (JObj payload))])%list
  end.
Proof.
  intros payload. unfold payload.
  destruct name, bio, profile_picture; try reflexivity;
    (split; [reflexivity|]); apply _request_frame.
Qed.


Lemma path_name_no_slash (p : string) : char_free "/"%char (path_name p) = true.
Proof.
  induction p as [|c p IH]; [reflexivity|]. cbn [path_name].
  destruct (existsb (Ascii.eqb "/"%char) (list_ascii_of_string p)) eqn:Hslash;
    [exact IH|].
  assert (Hfree : char_free "/"%char p = true).
  { unfold char_free. apply forallb_forall. intros x Hx.
    destruct (Ascii.eqb x "/"%char) eqn:Hxe; [|reflexivity].
    apply Ascii.eqb_eq in Hxe. subst x.
    assert (Hex : existsb (Ascii.eqb "/"%char) (list_ascii_of_string p) = true).
    { apply existsb_exists. exists "/"%char. split; [exact Hx|reflexivity]. }
    rewrite Hex in Hslash. discriminate. }
  destruct (Ascii.eqb c "/"%char) eqn:Hc; [exact Hfree|].
  unfold char_free in *. cbn [list_ascii_of_string forallb]. now rewrite Hc.
Qed.

Lemma no_slash_char_free (p : string) :
  existsb (Ascii.eqb "/"%char) (list_ascii_of_string p) = false ->
  char_free "/"%char p = true.
Proof.
  intros Hslash. unfold char_free. apply forallb_forall. intros x Hx.
  destruct (Ascii.eqb x "/"%char) eqn:Hxe; [|reflexivity].
  apply Ascii.eqb_eq in Hxe. subst x.
  assert (Hex : existsb (Ascii.eqb "/"%char) (list_ascii_of_string p) = true).
  { apply existsb_exists. exists "/"%char. split; [exact Hx|reflexivity]. }
  rewrite Hex in Hslash. discriminate.
Qed.

Lemma slash_splits (p : string) :
  existsb (Ascii.eqb "/"%char) (list_ascii_of_string p) = true ->
  exists first second rest, split_on "/"%char p = first :: second :: rest.
Proof.
  induction p as [|c p IH]; [discriminate|].
  cbn [list_ascii_of_string existsb split_on]. rewrite (Ascii.eqb_sym "/"%char c).
  destruct (Ascii.eqb c "/"%char).
  - intros _. destruct (split_on "/"%char p) as [|piece pieces] eqn:Hp.
    + destruct p; cbn in Hp; [discriminate|].
      destruct (Ascii.eqb a "/"%char); [discriminate|].
      destruct (split_on "/"%char p); discriminate.
    + do 3 eexists. reflexivity.
  - cbn [orb]. intros Hex. destruct (IH Hex) as (first & second & rest & ->).
    do 3 eexists. reflexivity.
Qed.

(** [path_name] is the last of the components between slashes. *)
Lemma path_name_last (p : string) : path_name p = last (split_on "/"%char p) "".
Proof.
  induction p as [|c p IH]; [reflexivity|]. cbn [path_name split_on].
  destruct (existsb (Ascii.eqb "/"%char) (list_ascii_of_string p)) eqn:Hslash.
  - destruct (slash_splits p Hslash) as (first & second & rest & Hsplit).
    rewrite IH, Hsplit. destruct (Ascii.eqb c "/"%char); reflexivity.
  - rewrite (split_on_whole _ _ (no_slash_char_free p Hslash)).
    destruct (Ascii.eqb c "/"%char); reflexivity.
Qed.

Lemma path_normal_name (p : string) :
  path_is_normal p = true -> path_name p <> "" /\ path_name p <> ".".
Proof.
  unfold path_is_normal. rewrite path_name_last.
  destruct (split_on "/"%char p) as [|first rest]; [discriminate|].
  assert (Hproper : forall component,
            negb (String.eqb component "") && negb (String.eqb component ".") = true ->
            component <> "" /\ component <> ".").
  { intros component Hc. apply andb_prop in Hc. destruct Hc as [He Hd].
    apply negb_true_iff in He, Hd. now rewrite String.eqb_neq in He, Hd. }
  destruct rest as [|second rest]; [exact (Hproper first)|].
  intros Hnormal. apply andb_prop in Hnormal. destruct Hnormal as [_ Hrest].
  apply Hproper.
  assert (Hin : In (last (first :: second :: rest) "") (second :: rest)).
  { change (last (first :: second :: rest) "") with (last (second :: rest) "").
    clear. revert second. induction rest as [|x rest IH]; intros second.
    - now left.
    - right. apply (IH x). }
  rewrite forallb_forall in Hrest. exact (Hrest _ Hin).
Qed.

(** X7. For a path in normal form (the text [Path] leaves as it is),
    [upload_file] of a path that does not exist raises its error without any
    HTTP request; of a file that exists it sends one POST of [/upload] with
    a single entry, whose name is the last component of the path (not
    empty, without a slash), whose content is the base64 text and whose type
    falls back to [application/octet-stream]. *)
Theorem upload_file_behaviour (self : SeedstrApiClient) (file_path : string)
    (st : state) :
  path_is_normal file_path = true ->
  path_name file_path = last (split_on "/"%char file_path) ""
  /\ path_name file_path <> ""
  /\ char_free "/"%char (path_name file_path) = true
  /\ match read_bytes_b64 file_path (world st) with
     | (Ok None, w) =>
         upload_file self file_path st
         = (Raise (SeedstrApiError ("File not found: " ++ file_path)),
            mkState w (calls st ++ [ReadCall file_path]) (_seen_jobs st) (state_file st))
     | (Ok (Some encoded), w) =>
         upload_file self file_path st
         = _request self "POST" "/upload" (Some (upload_payload file_path encoded))
             (mkState w (calls st ++ [ReadCall file_path]) (_seen_jobs st) (state_file st))
         /\ calls (snd (upload_file self file_path st))
            = (calls st ++
               [ReadCall file_path;
                HttpCall "POST" (base_url self ++ "/upload")
                  (Some (upload_payload file_path encoded))])%list
     | (Raise e, w) =>
         upload_file self file_path st
         = (Raise e,
            mkState w (calls st ++ [ReadCall file_path]) (_seen_jobs st) (state_file st))
     end.
Proof.
  intros Hnormal.
  split; [apply path_name_last|]. split; [apply (path_normal_name _ Hnormal)|].
  split; [apply path_name_no_slash|].
  unfold upload_file, bind, invoke.
  destruct (read_bytes_b64 file_path (world st)) as [[[encoded|]|e] w];
    try reflexivity.
  split; [reflexivity|].
  match goal with |- context [_request ?c ?m ?e ?p ?s] =>
    pose proof (_request_frame c m e p s) as [Hc _] end.
  unfold upload_payload. rewrite Hc. cbn [calls]. now rewrite <- app_assoc.
Qed.

(** X8. [_request] returns data exactly when the transport delivered a
    response that is [ok] and whose body parses, and the data is that body;
    a body that does not parse raises a [SeedstrApiError] whatever the
    status. *)
Theorem request_returns_body (self : SeedstrApiClient) (method endpoint : string)
    (payload : option json) (st : state) :
  (forall data,
     fst (_request self method endpoint payload st) = Ok data
     <-> exists resp w,
           requests_request method (base_url self ++ endpoint) payload
             (request_headers self) (timeout_seconds self) (world st) = (Ok resp, w)
           /\ resp_ok resp = true /\ resp_json resp = Some data)
  /\ (forall resp w,
        requests_request method (base_url self ++ endpoint) payload
          (request_headers self) (timeout_seconds self) (world st) = (Ok resp, w) ->
        resp_json resp = None ->
        fst (_request self method endpoint payload st)
        = Raise (SeedstrApiError
                   ("Invalid JSON from API (" ++ str_of_int (status_code resp) ++ ")"))).
Proof.
  unfold _request, bind, invoke, request_headers.
  destruct (requests_request method (base_url self ++ endpoint) payload _
              (timeout_seconds self) (world st)) as [[resp|e] w] eqn:Horacle.
  - split.
    + intros data. split.
      * intros Hok. exists resp, w. split; [reflexivity|].
        destruct (resp_json resp) as [body|]; [|discriminate].
        destruct (resp_ok resp); [|destruct body; discriminate].
        injection Hok as <-. now split.
      * intros (resp' & w' & Heq & Hok & Hbody). injection Heq as <- <-.
        now rewrite Hbody, Hok.
    + intros resp' w' Heq Hbody. injection Heq as <- <-. now rewrite Hbody.
  - split.
    + intros data. split; [discriminate|].
      intros (resp' & w' & Heq & _). discriminate.
    + intros resp' w' Heq. discriminate.
Qed.

(** ** Construction of the clients *)

Lemma rstrip_char_spec (ch : ascii) (s : string) :
  (exists tail, s = rstrip_char ch s ++ tail
                /\ forallb (fun x => Ascii.eqb x ch) (list_ascii_of_string tail) = true)
  /\ ends_with_char ch (rstrip_char ch s) = false.
Proof.
  induction s as [|c s [(tail & Heq & Htail) Hend]]; cbn [rstrip_char].
  - split; [exists ""; split; reflexivity|reflexivity].
  - destruct (rstrip_char ch s) as [|c' r] eqn:Hr.
    + cbn [append] in Heq. subst tail.
      destruct (Ascii.eqb c ch) eqn:Hc.
      * split; [|reflexivity]. exists (String c s). split; [reflexivity|].
        cbn [list_ascii_of_string forallb]. now rewrite Hc.
      * split; [|exact Hc]. exists s. split; [reflexivity|exact Htail].
    + split.
      * exists tail. split; [|exact Htail]. cbn [append]. f_equal. exact Heq.
      * exact Hend.
Qed.

Lemma lstrip_empty (s : string) : lstrip s = "" <-> all_space s = true.
Proof.
  unfold all_space. induction s as [|c s IH]; [now split|].
  cbn [lstrip list_ascii_of_string forallb].
  destruct (is_space c); [exact IH|]. split; discriminate.
Qed.

Lemma strip_empty (s : string) : strip s = "" <-> all_space s = true.
Proof.
  rewrite <- lstrip_empty. unfold strip. split.
  - intros Hempty. pose proof (lstrip_head s) as Hhead.
    destruct (lstrip s) as [|c t]; [reflexivity|].
    simpl in Hhead. rewrite rstrip_cons in Hempty.
    destruct (rstrip t); [rewrite Hhead in Hempty|]; discriminate.
  - now intros ->.
Qed.

(** X9. The client constructor stores the base URL without its trailing
    slashes and the key without surrounding whitespace, so that the
    [Authorization] header is sent exactly when the key given has a
    character that is not whitespace. *)
Theorem client_init_normalises (base_url0 api_key0 : string) (timeout : Z) :
  let self := SeedstrApiClient_init base_url0 api_key0 timeout in
  ends_with_char "/"%char (base_url self) = false
  /\ (exists slashes,
        base_url0 = base_url self ++ slashes
        /\ forallb (fun x => Ascii.eqb x "/"%char) (list_ascii_of_string slashes) = true)
  /\ strip (api_key self) = api_key self
  /\ request_headers self
     = ("Content-Type", "application/json") ::
       (if all_space api_key0 then []
        else [("Authorization", "Bearer " ++ strip api_key0)]).
Proof.
  intros self. destruct (rstrip_char_spec "/"%char base_url0) as [Htail Hend].
  split; [exact Hend|]. split; [exact Htail|]. split; [apply strip_idempotent|].
  unfold request_headers, self, SeedstrApiClient_init. cbn [api_key].
  destruct (all_space api_key0) eqn:Hspace.
  - apply strip_empty in Hspace. now rewrite Hspace.
  - destruct (strip api_key0) eqn:Hstrip; [|reflexivity].
    apply strip_empty in Hstrip. rewrite Hstrip in Hspace. discriminate.
Qed.

(** X10. [Settings.has_llm_provider] is true exactly when the failover
    client can be built from the same keys and model lists. *)
Theorem has_llm_provider_iff_init (self : ProviderSettings) :
  has_llm_provider self = true
  <-> exists client,
        LLMFailoverClient_init (gemini_api_key self) (openai_api_key self)
          (gemini_models self) (openai_models self) = Ok client.
Proof.
  destruct self as [gk ok gm om]. unfold has_llm_provider, LLMFailoverClient_init.
  cbn [gemini_api_key openai_api_key gemini_models openai_models].
  destruct gk, gm, ok, om; cbn; split;
    try (intros _; eexists; reflexivity);
    try discriminate; try (intros [client Hc]; discriminate);
    try (intros _; reflexivity).
Qed.

(** ** The failover client: answers and provider calls *)

Lemma generate_loop_answer self prompt system_prompt ts errors st answer label st' :
  generate_loop self prompt system_prompt ts errors st = (Ok (answer, label), st') ->
  answer <> "" /\ strip answer = answer
  /\ exists target, In target ts /\ label = target_label target.
Proof.
  revert errors st; induction ts as [|target rest IH]; intros errors st;
    cbn [generate_loop]; [discriminate|].
  destruct (provider_call self target prompt system_prompt st) as [[text|exc] st1].
  - destruct (str_truthy (strip text)) eqn:Htruthy.
    + intros Hok. injection Hok as <- <- <-. split; [|split].
      * intros Hempty. rewrite Hempty in Htruthy. discriminate.
      * apply strip_idempotent.
      * exists target. split; [now left|reflexivity].
    + intros Hrest. destruct (IH _ _ Hrest) as (Hne & Hstrip & t & Hin & Hl).
      repeat split; auto. exists t. split; [now right|exact Hl].
  - intros Hrest. destruct (IH _ _ Hrest) as (Hne & Hstrip & t & Hin & Hl).
    repeat split; auto. exists t. split; [now right|exact Hl].
Qed.

(** X11. An answer that [generate] returns is never empty and has no
    whitespace at either end, and its label is the [provider:model] of one
    of the configured targets. *)
Theorem generate_answer_clean (self : LLMFailoverClient)
    (prompt system_prompt : string) (st : state)
    (answer label : string) (st' : state) :
  generate self prompt system_prompt st = (Ok (answer, label), st') ->
  answer <> "" /\ strip answer = answer
  /\ exists target, In target (targets self) /\ label = target_label target.
Proof. apply generate_loop_answer. Qed.

(** A target that its client can serve: a Gemini target, or any other
    target when the OpenAI client exists. *)
Lemma provider_call_logs self target prompt system_prompt st :
  provider target = "gemini" \/ _openai_client self <> None ->
  calls (snd (provider_call self target prompt system_prompt st))
  = (calls st ++ [sdk_call prompt system_prompt target])%list.
Proof.
  intros Hserved. unfold provider_call, sdk_call, _generate_gemini, _generate_openai.
  destruct (String.eqb (provider target) "gemini") eqn:Hp.
  - unfold bind.
    match goal with |- context [invoke ?c ?f st] =>
      pose proof (invoke_calls c f st) as [Hc _]; destruct (invoke c f st) as [[text|e] st1]
    end; cbn [snd] in *; [|exact Hc].
    destruct text as [text|]; [destruct (str_truthy text)|]; exact Hc.
  - destruct Hserved as [Hg|Hclient];
      [rewrite Hg in Hp; discriminate|].
    destruct (_openai_client self) as [key|]; [|contradiction].
    unfold bind.
    match goal with |- context [invoke ?c ?f st] =>
      pose proof (invoke_calls c f st) as [Hc _]; destruct (invoke c f st) as [[text|e] st1]
    end; cbn [snd] in *; [|exact Hc].
    destruct text as [text|]; [destruct (str_truthy text)|]; exact Hc.
Qed.

Lemma generate_loop_logs self prompt system_prompt ts errors st :
  Forall (fun target => provider target = "gemini" \/ _openai_client self <> None) ts ->
  exists n,
    n <= List.length ts
    /\ (ts <> [] -> 1 <= n)
    /\ calls (snd (generate_loop self prompt system_prompt ts errors st))
       = (calls st ++ map (sdk_call prompt system_prompt) (firstn n ts))%list
    /\ (forall e,
          fst (generate_loop self prompt system_prompt ts errors st) = Raise e ->
          n = List.length ts).
Proof.
  intros Hserved. revert errors st.
  induction Hserved as [|target rest Htarget _ IH]; intros errors st.
  - exists 0. cbn. rewrite app_nil_r. repeat split; auto. intros Hne. contradiction.
  - cbn [generate_loop].
    pose proof (provider_call_logs self target prompt system_prompt st Htarget) as Hlog.
    destruct (provider_call self target prompt system_prompt st) as [[text|exc] st1];
      cbn [snd] in Hlog.
    + destruct (str_truthy (strip text)).
      * exists 1. cbn [fst snd firstn map List.length]. rewrite Hlog.
        repeat split; auto; try lia. intros e He. discriminate.
      * destruct (IH (push errors (target_label target ++ " returned empty output")) st1)
          as (n & Hn & _ & Hcalls & Hraise).
        exists (S n). cbn [firstn map List.length].
        rewrite Hcalls, Hlog, <- app_assoc. repeat split; auto; try lia.
        intros e He. now rewrite (Hraise e He).
    + destruct (IH (push errors (target_label target ++ " failed: " ++ exn_str exc)) st1)
        as (n & Hn & _ & Hcalls & Hraise).
      exists (S n). cbn [firstn map List.length].
      rewrite Hcalls, Hlog, <- app_assoc. repeat split; auto; try lia.
      intros e He. now rewrite (Hraise e He).
Qed.

Lemma init_targets_served gemini_key openai_key gemini_list openai_list client :
  LLMFailoverClient_init gemini_key openai_key gemini_list openai_list = Ok client ->
  targets client <> []
  /\ Forall (fun target => provider target = "gemini" \/ _openai_client client <> None)
       (targets client).
Proof.
  unfold LLMFailoverClient_init.
  destruct (str_truthy gemini_key && list_truthy gemini_list) eqn:Hg,
           (str_truthy openai_key && list_truthy openai_list) eqn:Ho;
    cbn [app]; rewrite ?app_nil_r.
  - destruct (negb (list_truthy _)) eqn:Hts; [discriminate|].
    intros Hok. injection Hok as <-. cbn [targets _openai_client]. split.
    + intros Hnil. rewrite Hnil in Hts. discriminate.
    + apply Forall_forall. intros t _. right. discriminate.
  - destruct (negb (list_truthy _)) eqn:Hts; [discriminate|].
    intros Hok. injection Hok as <-. cbn [targets _openai_client]. split.
    + intros Hnil. rewrite Hnil in Hts. discriminate.
    + apply Forall_forall. intros t Hin. left.
      apply in_map_iff in Hin. now destruct Hin as (m & <- & _).
  - destruct (negb (list_truthy _)) eqn:Hts; [discriminate|].
    intros Hok. injection Hok as <-. cbn [targets _openai_client]. split.
    + intros Hnil. rewrite Hnil in Hts. discriminate.
    + apply Forall_forall. intros t _. right. discriminate.
  - discriminate.
Qed.

(** X12. On a client built by the constructor, [generate] makes one
    provider call per target it tries and nothing else: the calls are those
    of the first [n] targets, in order, with [n] at least 1, and when
    [generate] raises every target was called once. *)
Theorem generate_calls_per_target gemini_key openai_key gemini_list openai_list
    (client : LLMFailoverClient) (prompt system_prompt : string) (st : state) :
  LLMFailoverClient_init gemini_key openai_key gemini_list openai_list = Ok client ->
  exists n,
    1 <= n <= List.length (targets client)
    /\ calls (snd (generate client prompt system_prompt st))
       = (calls st ++
          map (sdk_call prompt system_prompt) (firstn n (targets client)))%list
    /\ (forall e,
          fst (generate client prompt system_prompt st) = Raise e ->
          n = List.length (targets client)).
Proof.
  intros Hinit. destruct (init_targets_served _ _ _ _ _ Hinit) as [Hne Hserved].
  destruct (generate_loop_logs client prompt system_prompt (targets client) [] st Hserved)
    as (n & Hn & Hone & Hcalls & Hraise).
  exists n. repeat split; auto.
Qed.

(** ** The store as a set: growth, restart and repeated jobs *)

Lemma set_add_In (x : string) (s : list string) : In x (set_add x s).
Proof.
  unfold set_add. destruct (str_in x s) eqn:Hin.
  - now apply str_in_In.
  - unfold push. apply in_or_app. right. now left.
Qed.

Lemma set_add_incl (x : string) (s : list string) : incl s (set_add x s).
Proof.
  unfold set_add. destruct (str_in x s); [apply incl_refl|].
  unfold push. now apply incl_appl, incl_refl.
Qed.

Lemma set_add_members (x y : string) (s : list string) :
  In y (set_add x s) -> In y s \/ y = x.
Proof.
  unfold set_add. destruct (str_in x s); [now left|].
  unfold push. intros Hin. apply in_app_or in Hin.
  destruct Hin as [Hin|[<-|[]]]; [now left|now right].
Qed.

Lemma set_add_NoDup (x : string) (s : list string) : NoDup s -> NoDup (set_add x s).
Proof.
  intros Hnodup. unfold set_add. destruct (str_in x s) eqn:Hin; [exact Hnodup|].
  unfold push. apply NoDup_app; [exact Hnodup | repeat constructor; intros [] |].
  intros y Hy [<-|[]]. exact (str_in_false _ _ Hin Hy).
Qed.

Lemma set_fold_NoDup (xs acc : list string) :
  NoDup acc -> NoDup (fold_left (fun s x => set_add x s) xs acc).
Proof.
  revert acc; induction xs as [|x xs IH]; intros acc Hacc; [exact Hacc|].
  cbn [fold_left]. now apply IH, set_add_NoDup.
Qed.

Lemma set_fold_In (xs acc : list string) (y : string) :
  In y (fold_left (fun s x => set_add x s) xs acc) <-> In y acc \/ In y xs.
Proof.
  revert acc; induction xs as [|x xs IH]; intros acc; cbn [fold_left].
  - split; [now left|now intros [Hin|[]]].
  - rewrite IH. split.
    + intros [Hin|Hin]; [|now right; right].
      destruct (set_add_members _ _ _ Hin) as [Hacc| ->]; [now left|now right; left].
    + intros [Hin|[<-|Hin]].
      * left. now apply set_add_incl.
      * left. apply set_add_In.
      * now right.
Qed.

Lemma set_fold_fresh (xs acc : list string) :
  NoDup xs -> (forall x, In x xs -> ~ In x acc) ->
  fold_left (fun s x => set_add x s) xs acc = (acc ++ xs)%list.
Proof.
  revert acc; induction xs as [|x xs IH]; intros acc Hnodup Hfresh; cbn [fold_left].
  - now rewrite app_nil_r.
  - inversion Hnodup as [|? ? Hx Hxs]; subst.
    assert (Hadd : set_add x acc = (acc ++ [x])%list).
    { unfold set_add. destruct (str_in x acc) eqn:Hin; [|reflexivity].
      apply str_in_In in Hin. exfalso. apply (Hfresh x); [now left|exact Hin]. }
    rewrite Hadd, IH; [now rewrite <- app_assoc|exact Hxs|].
    intros y Hy Hin. apply in_app_or in Hin. destruct Hin as [Hin|[<-|[]]].
    + apply (Hfresh y); [now right|exact Hin].
    + contradiction.
Qed.

Lemma set_of_list_NoDup_id (xs : list string) : NoDup xs -> set_of_list xs = xs.
Proof.
  intros Hnodup. unfold set_of_list. rewrite set_fold_fresh; auto.
Qed.

Lemma NoDup_last_n {A} (n : nat) (xs : list A) : NoDup xs -> NoDup (last_n n xs).
Proof.
  unfold last_n. intros Hnodup.
  rewrite <- (firstn_skipn (List.length xs - n) xs) in Hnodup.
  now apply NoDup_app_remove_l in Hnodup.
Qed.

(** The store after [_process_job]: the old one, with the id of the job
    added in the terminal states that mark. *)
Lemma process_job_store (self : AgentRunner) (job : dict) (st : state) :
  exists t,
    _seen_jobs (snd (_process_job self job st))
    = if marks_seen t then set_add (job_id_of job) (_seen_jobs st) else _seen_jobs st.
Proof.
  destruct (run_job_total self job st) as (t & st1 & Hrun).
  exists t. rewrite (process_job_run _ _ _ _ _ Hrun). cbn [snd].
  destruct (run_job_keeps_store _ _ _ _ _ Hrun) as [Hs _].
  destruct (marks_seen t); [|exact Hs].
  rewrite _mark_seen_spec. cbn [snd _seen_jobs]. now rewrite Hs.
Qed.

(** X13. [_process_job] keeps the store a set and never removes an id from
    it; the only id it can add is the id of the job it was given. *)
Theorem process_job_store_grows (self : AgentRunner) (job : dict) (st : state) :
  NoDup (_seen_jobs st) ->
  let st' := snd (_process_job self job st) in
  NoDup (_seen_jobs st')
  /\ incl (_seen_jobs st) (_seen_jobs st')
  /\ forall id, In id (_seen_jobs st') -> In id (_seen_jobs st) \/ id = job_id_of job.
Proof.
  intros Hnodup st'. unfold st'.
  destruct (process_job_store self job st) as [t ->].
  destruct (marks_seen t).
  - split; [now apply set_add_NoDup|]. split; [apply set_add_incl|].
    intros id. apply set_add_members.
  - split; [exact Hnodup|]. split; [apply incl_refl|]. intros id Hin. now left.
Qed.

(** X14. Once a job has reached a terminal state that marks it, processing
    the same job again does nothing, in the state just reached and in every
    later state whose store still holds the ids of that one. *)
Theorem marked_job_not_reprocessed (self : AgentRunner) (job : dict) (st : state)
    (t : terminal) (st1 : state) :
  run_job self job st t st1 ->
  marks_seen t = true ->
  forall st2,
    incl (_seen_jobs (snd (_process_job self job st))) (_seen_jobs st2) ->
    _process_job self job st2 = (Ok tt, st2).
Proof.
  intros Hrun Hmarks st2 Hincl.
  rewrite (process_job_run _ _ _ _ _ Hrun), Hmarks in Hincl. cbn [snd] in Hincl.
  rewrite _mark_seen_spec in Hincl. cbn [snd _seen_jobs] in Hincl.
  assert (Hin : In (job_id_of job) (_seen_jobs st2)) by apply Hincl, set_add_In.
  apply str_in_In in Hin. rewrite _process_job_unfold, Hin.
  now destruct (negb (str_truthy (job_id_of job))).
Qed.

Lemma load_written_file (ids : list string) :
  _load_seen_jobs (Doc (JObj [("seen_jobs", JList (map JStr ids))])) = set_of_list ids.
Proof.
  unfold _load_seen_jobs, get_default. cbn [lookup].
  rewrite String.eqb_refl. cbn [iterate]. rewrite map_map. cbn [py_str].
  now rewrite map_id.
Qed.

(** X15. Loading the file that [_mark_seen] has just written gives back the
    ids it persisted, each once: the last 1000 of the store in iteration
    order, all of them ids of the store, and the whole store when it holds
    at most 1000 ids. *)
Theorem persist_then_load (self : AgentRunner) (job_id : string) (st : state) :
  NoDup (_seen_jobs st) ->
  let st' := snd (_mark_seen self job_id st) in
  _load_seen_jobs (state_file st') = last_n 1000 (set_iter (_seen_jobs st'))
  /\ map JStr (_load_seen_jobs (state_file st')) = persisted (state_file st')
  /\ incl (_load_seen_jobs (state_file st')) (_seen_jobs st')
  /\ (List.length (_seen_jobs st') <= 1000 ->
      Permutation (_load_seen_jobs (state_file st')) (_seen_jobs st')).
Proof.
  intros Hnodup st'. unfold st'. rewrite _mark_seen_spec.
  cbn [snd state_file _seen_jobs persisted].
  set (seen := set_add job_id (_seen_jobs st)).
  assert (Hseen : NoDup seen) by now apply set_add_NoDup.
  assert (Hiter : NoDup (set_iter seen)).
  { eapply Permutation_NoDup; [apply Permutation_sym, set_iter_perm|exact Hseen]. }
  rewrite load_written_file, set_of_list_NoDup_id by now apply NoDup_last_n.
  split; [reflexivity|]. split; [reflexivity|]. split.
  - intros x Hx. apply last_n_incl in Hx.
    eapply Permutation_in; [apply set_iter_perm|exact Hx].
  - intros Hlen. unfold last_n.
    rewrite (Permutation_length (set_iter_perm seen)).
    replace (List.length seen - 1000) with 0 by lia.
    apply set_iter_perm.
Qed.

(** X16. Whatever the state file holds, the store loaded from it has no
    duplicates; when the document is an object whose [seen_jobs] is a list,
    the store holds exactly the texts [str(item)] of its items. *)
Theorem load_seen_jobs_is_set (f : file) :
  NoDup (_load_seen_jobs f)
  /\ forall payload items,
       f = Doc (JObj payload) ->
       get_default payload "seen_jobs" (JList []) = JList items ->
       forall x, In x (_load_seen_jobs f) <-> exists item, In item items /\ py_str item = x.
Proof.
  split.
  - unfold _load_seen_jobs. destruct f as [| |v]; try constructor.
    destruct v; try constructor.
    destruct (iterate _); [|constructor].
    unfold set_of_list. apply set_fold_NoDup. constructor.
  - intros payload items -> Hjobs x. unfold _load_seen_jobs. rewrite Hjobs.
    cbn [iterate]. unfold set_of_list. rewrite set_fold_In, in_map_iff.
    split.
    + intros [[]|(item & Hx & Hin)]. exists item. now split.
    + intros (item & Hin & Hx). right. exists item. now split.
Qed.

(** ** One polling cycle *)

Lemma process_item_seen (self : AgentRunner) (item : json) (st : state) :
  (exists job, item = JObj job
               /\ (job_id_of job = "" \/ In (job_id_of job) (_seen_jobs st))) ->
  process_item self item st = (Ok tt, st).
Proof.
  intros (job & -> & Hskip). cbn [process_item]. rewrite _process_job_unfold.
  destruct Hskip as [Hid|Hin].
  - now rewrite Hid.
  - apply str_in_In in Hin. rewrite Hin.
    now destruct (negb (str_truthy (job_id_of job))).
Qed.

Lemma process_jobs_seen (self : AgentRunner) (items : list json) (st : state) :
  Forall (fun item =>
            exists job, item = JObj job
                        /\ (job_id_of job = "" \/ In (job_id_of job) (_seen_jobs st)))
         items ->
  process_jobs self items st = (Ok tt, st).
Proof.
  induction 1 as [|item items Hitem _ IH]; [reflexivity|].
  cbn [process_jobs]. unfold bind. now rewrite (process_item_seen _ _ _ Hitem).
Qed.

Lemma list_jobs_frame (self : AgentRunner) (st : state) :
  let st1 := snd (list_jobs (api self) (max_jobs_per_cycle (settings self)) 0 st) in
  calls st1 = (calls st ++ [listing_call self])%list
  /\ _seen_jobs st1 = _seen_jobs st /\ state_file st1 = state_file st.
Proof. unfold list_jobs, listing_call. apply _request_frame. Qed.

(** X17. A cycle whose listing fails with an API error, or lists only jobs
    without an id or jobs already in the store (or no job at all), ends
    without error: the listing is its only call, and the store and the state
    file are untouched. *)
Theorem run_once_quiet (self : AgentRunner) (st st1 : state) :
  (exists m,
     list_jobs (api self) (max_jobs_per_cycle (settings self)) 0 st
     = (Raise (SeedstrApiError m), st1))
  \/ (exists payload items,
        list_jobs (api self) (max_jobs_per_cycle (settings self)) 0 st
        = (Ok (JObj payload), st1)
        /\ get_default payload "jobs" (JList []) = JList items
        /\ Forall (fun item =>
                     exists job, item = JObj job
                                 /\ (job_id_of job = ""
                                     \/ In (job_id_of job) (_seen_jobs st)))
                  items) ->
  run_once self st = (Ok tt, st1)
  /\ calls st1 = (calls st ++ [listing_call self])%list
  /\ _seen_jobs st1 = _seen_jobs st
  /\ state_file st1 = state_file st.
Proof.
  intros Hcase. pose proof (list_jobs_frame self st) as Hframe. cbn zeta in Hframe.
  unfold run_once.
  destruct Hcase as [[m Hlist]|(payload & items & Hlist & Hjobs & Hseen)];
    rewrite Hlist in *; cbn [snd] in Hframe.
  - split; [reflexivity|exact Hframe].
  - split; [|exact Hframe]. rewrite Hjobs. cbn [truthy iterate].
    destruct Hframe as (_ & Hstore & _).
    destruct items as [|item items]; [reflexivity|]. cbn [negb].
    apply process_jobs_seen. rewrite Hstore. exact Hseen.
Qed.

Lemma process_jobs_store (self : AgentRunner) (items : list json) (st : state) :
  NoDup (_seen_jobs st) ->
  NoDup (_seen_jobs (snd (process_jobs self items st)))
  /\ incl (_seen_jobs st) (_seen_jobs (snd (process_jobs self items st))).
Proof.
  revert st; induction items as [|item items IH]; intros st Hnodup.
  - split; [exact Hnodup|apply incl_refl].
  - cbn [process_jobs]. unfold bind.
    assert (Hitem : NoDup (_seen_jobs (snd (process_item self item st)))
                    /\ incl (_seen_jobs st) (_seen_jobs (snd (process_item self item st)))).
    { destruct item; try (split; [exact Hnodup|apply incl_refl]).
      cbn [process_item].
      destruct (process_job_store self fields st) as [t Hstore]. rewrite Hstore.
      destruct (marks_seen t).
      - split; [now apply set_add_NoDup|apply set_add_incl].
      - split; [exact Hnodup|apply incl_refl]. }
    destruct (process_item self item st) as [[[]|e] st1]; cbn [snd] in *;
      [|exact Hitem].
    destruct Hitem as [Hn1 Hi1]. destruct (IH st1 Hn1) as [Hn2 Hi2].
    split; [exact Hn2|]. eapply incl_tran; eauto.
Qed.

(** X18. A polling cycle, however it ends, keeps the store a set and never
    removes an id from it. *)
Theorem run_once_store_grows (self : AgentRunner) (st : state) :
  NoDup (_seen_jobs st) ->
  NoDup (_seen_jobs (snd (run_once self st)))
  /\ incl (_seen_jobs st) (_seen_jobs (snd (run_once self st))).
Proof.
  intros Hnodup. pose proof (list_jobs_frame self st) as Hframe. cbn zeta in Hframe.
  unfold run_once.
  destruct (list_jobs (api self) (max_jobs_per_cycle (settings self)) 0 st)
    as [[payload|exc] st1]; cbn [snd] in Hframe; destruct Hframe as (_ & Hstore & _).
  - assert (Hsame : NoDup (_seen_jobs st1) /\ incl (_seen_jobs st) (_seen_jobs st1)).
    { rewrite Hstore. split; [exact Hnodup|apply incl_refl]. }
    destruct payload; try exact Hsame.
    destruct (negb (truthy _)); [exact Hsame|].
    destruct (iterate _) as [items|]; [|exact Hsame].
    destruct Hsame as [Hn1 Hi1].
    destruct (process_jobs_store self items st1 Hn1) as [Hn2 Hi2].
    split; [exact Hn2|]. eapply incl_tran; eauto.
  - destruct (is_api_error exc); cbn [snd]; rewrite Hstore;
      (split; [exact Hnodup|apply incl_refl]).
Qed.

(** ** The order of calls in the pipeline *)

Lemma appends_ret {A} (a : A) : appends_calls (ret a).
Proof. intros st. exists []. cbn. now rewrite app_nil_r. Qed.

Lemma appends_raise {A} (e : exn) : appends_calls (@raise _ A e).
Proof. intros st. exists []. cbn. now rewrite app_nil_r. Qed.

Lemma appends_invoke {A} (c : call) (f : W -> result A * W) : appends_calls (invoke c f).
Proof. intros st. exists [c]. apply invoke_calls. Qed.

Lemma appends_bind {A B} (m : M A) (k : A -> M B) :
  appends_calls m -> (forall a, appends_calls (k a)) -> appends_calls (bind m k).
Proof.
  intros Hm Hk st. unfold bind. destruct (Hm st) as [more Hmore].
  destruct (m st) as [[a|e] st1]; cbn [snd] in *.
  - destruct (Hk a st1) as [more' Hmore']. exists (more ++ more')%list.
    now rewrite Hmore', Hmore, app_assoc.
  - now exists more.
Qed.

Lemma appends_try_except {A} (m : M A) (handles : exn -> bool) (h : exn -> M A) :
  appends_calls m -> (forall e, appends_calls (h e)) ->
  appends_calls (try_except m handles h).
Proof.
  intros Hm Hh st. unfold try_except. destruct (Hm st) as [more Hmore].
  destruct (m st) as [[a|e] st1]; cbn [snd] in *; [now exists more|].
  destruct (handles e); [|now exists more].
  destruct (Hh e st1) as [more' Hmore']. exists (more ++ more')%list.
  now rewrite Hmore', Hmore, app_assoc.
Qed.

Lemma appends_request self method endpoint payload :
  appends_calls (_request self method endpoint payload).
Proof. intros st. eexists. apply _request_frame. Qed.

Lemma appends_respond_file_any self job_id upload_result fallback_text :
  appends_calls (respond_file_any self job_id upload_result fallback_text).
Proof.
  destruct upload_result; try apply appends_raise.
  cbn [respond_file_any]. unfold respond_file.
  generalize (@None exn) as last.
  induction (respond_file_attempts fields fallback_text) as [|payload rest IH];
    intros last; cbn [respond_file_loop].
  - apply appends_raise.
  - apply appends_try_except; [apply appends_request|]. intros e. apply IH.
Qed.

Lemma appends_upload_file self file_path : appends_calls (upload_file self file_path).
Proof.
  unfold upload_file. apply appends_bind; [apply appends_invoke|].
  intros [encoded|]; [apply appends_request|apply appends_raise].
Qed.

Lemma appends_create_archive archive_path job_id prompt answer model_name :
  appends_calls (_create_submission_archive archive_path job_id prompt answer model_name).
Proof.
  unfold _create_submission_archive. apply appends_bind; [apply appends_invoke|].
  intros now. apply appends_invoke.
Qed.

Lemma appends_provider_call self target prompt system_prompt :
  appends_calls (provider_call self target prompt system_prompt).
Proof.
  unfold provider_call, _generate_gemini, _generate_openai.
  destruct (String.eqb (provider target) "gemini").
  - apply appends_bind; [apply appends_invoke|].
    intros [text|]; [destruct (str_truthy text)|];
      first [apply appends_ret | apply appends_raise].
  - destruct (_openai_client self); [|apply appends_raise].
    apply appends_bind; [apply appends_invoke|].
    intros [text|]; [destruct (str_truthy text)|];
      first [apply appends_ret | apply appends_raise].
Qed.

Lemma appends_generate self prompt system_prompt :
  appends_calls (generate self prompt system_prompt).
Proof.
  unfold generate. generalize (@nil string) as errors.
  induction (targets self) as [|target rest IH]; intros errors.
  - apply appends_raise.
  - intros st. cbn [generate_loop].
    destruct (appends_provider_call self target prompt system_prompt st) as [more Hmore].
    destruct (provider_call self target prompt system_prompt st) as [[text|exc] st1];
      cbn [snd] in Hmore.
    + destruct (str_truthy (strip text)); [now exists more|].
      destruct (IH (push errors (target_label target ++ " returned empty output")) st1)
        as [more' Hmore'].
      exists (more ++ more')%list. now rewrite Hmore', Hmore, app_assoc.
    + destruct (IH (push errors (target_label target ++ " failed: " ++ exn_str exc)) st1)
        as [more' Hmore'].
      exists (more ++ more')%list. now rewrite Hmore', Hmore, app_assoc.
Qed.

Lemma appends_mark_seen self job_id : appends_calls (_mark_seen self job_id).
Proof. intros st. exists []. rewrite _mark_seen_spec. cbn. now rewrite app_nil_r. Qed.

Lemma appends_try_block self job_id prompt :
  appends_calls
    (try_except (generate_and_submit self job_id prompt) any_exception (fun exc => ret tt)).
Proof.
  apply appends_try_except; [|intros e; apply appends_ret].
  unfold generate_and_submit, package_and_respond.
  apply appends_bind; [apply appends_generate|]. intros r.
  apply appends_bind; [|intros u; apply appends_mark_seen].
  apply appends_bind; [apply appends_invoke|]. intros temp_dir.
  apply appends_bind; [apply appends_create_archive|]. intros u.
  apply appends_bind; [apply appends_upload_file|]. intros upload_result.
  apply appends_bind; [apply appends_respond_file_any|]. intros data.
  apply appends_ret.
Qed.

(** X19. A job that is skipped for its budget costs no call at all: the
    log of calls and the world are as before, and the id is in the store. *)
Theorem under_budget_no_call (self : AgentRunner) (job : dict) (st : state)
    (budget : spec_float) :
  job_id_of job <> "" ->
  str_in (job_id_of job) (_seen_jobs st) = false ->
  _effective_budget job = Ok budget ->
  SFltb budget (min_budget_usd (settings self)) = true ->
  let st' := snd (_process_job self job st) in
  fst (_process_job self job st) = Ok tt
  /\ calls st' = calls st
  /\ world st' = world st
  /\ In (job_id_of job) (_seen_jobs st').
Proof.
  intros Hid Hseen Hbudget Hlow st'. unfold st'.
  rewrite (process_job_run self job st SkippedUnderBudget st)
    by (eapply run_under_budget; eauto).
  cbn [marks_seen returned fst snd]. rewrite _mark_seen_spec. cbn.
  repeat split. apply set_add_In.
Qed.

(** X20. For a SWARM job that has an id, is new and has enough budget, the
    accept request is the first call made, before any model call, upload or
    response. *)
Theorem swarm_accept_comes_first (self : AgentRunner) (job : dict) (st : state)
    (budget : spec_float) :
  job_id_of job <> "" ->
  str_in (job_id_of job) (_seen_jobs st) = false ->
  _effective_budget job = Ok budget ->
  SFltb budget (min_budget_usd (settings self)) = false ->
  job_type_of job = "SWARM" ->
  exists later,
    calls (snd (_process_job self job st))
    = (calls st ++ accept_call self (job_id_of job) :: later)%list.
Proof.
  intros Hid Hseen Hbudget Hlow Htype.
  rewrite _process_job_unfold, (str_truthy_nonempty _ Hid), Hseen, Hbudget, Hlow.
  pose proof (_request_frame (api self) "POST" ("/jobs/" ++ job_id_of job ++ "/accept")
                None st) as [Hacc _].
  fold (accept_job (api self) (job_id_of job)) in Hacc.
  fold (accept_call self (job_id_of job)) in Hacc.
  destruct (accept_job (api self) (job_id_of job) st) as [[data|e] sa] eqn:Hrun;
    cbn [snd] in Hacc.
  - assert (Hstep : accept_if_swarm self job (job_id_of job) st = (Ok true, sa)).
    { unfold accept_if_swarm. fold (job_type_of job).
      rewrite Htype, String.eqb_refl. unfold try_except, bind. now rewrite Hrun. }
    rewrite Hstep. cbn [negb].
    destruct (negb (str_truthy (prompt_of job))).
    + exists []. rewrite _mark_seen_spec. cbn [snd calls]. exact Hacc.
    + destruct (appends_try_block self (job_id_of job) (prompt_of job) sa)
        as [more Hmore].
      exists more. now rewrite Hmore, Hacc, <- app_assoc.
  - rewrite (accept_step_raises _ _ _ _ _ Htype Hrun).
    destruct (is_api_error e); cbn [negb snd].
    + exists []. rewrite _mark_seen_spec. cbn [snd calls]. exact Hacc.
    + exists []. exact Hacc.
Qed.

(** ** The probe script *)

Section Probe.
Context `{Requests}.

Lemma _request_json_frame base endpoint timeout key (st : state) :
  calls (snd (_request_json base endpoint timeout key st))
  = (calls st ++ [probe_call base endpoint])%list.
Proof.
  unfold _request_json, bind, probe_call.
  match goal with |- context [invoke ?c ?f st] =>
    pose proof (invoke_calls c f st) as [Hc _]; destruct (invoke c f st) as [[resp|e] st1]
  end; cbn [snd] in *; [|exact Hc].
  destruct (negb (resp_ok resp)); [exact Hc|].
  destruct (resp_json resp) as [body|]; [|exact Hc].
  destruct body; exact Hc.
Qed.

Lemma fetches_failed_calls base timeout key endpoints st last st' last' :
  all_fetches_failed base timeout key endpoints st last st' last' ->
  calls st' = (calls st ++ map (probe_call base) endpoints)%list.
Proof.
  induction 1 as [|endpoint rest st last exc st1 st2 last2 Hreq Hrest IH]; simpl.
  - now rewrite app_nil_r.
  - rewrite IH. pose proof (_request_json_frame base endpoint timeout key st) as Hc.
    rewrite Hreq in Hc. simpl in Hc. rewrite Hc, <- app_assoc. reflexivity.
Qed.

(** What a successful [_request_json] returns: the object of an [ok]
    response to that very request. *)
Lemma _request_json_ok base endpoint timeout key (st : state) payload st' :
  _request_json base endpoint timeout key st = (Ok payload, st') ->
  exists headers resp w,
    requests_request "GET" (rstrip_char "/"%char base ++ endpoint) None headers timeout
      (world st) = (Ok resp, w)
    /\ resp_ok resp = true
    /\ resp_json resp = Some (JObj payload)
    /\ st' = mkState w (calls st ++ [probe_call base endpoint])
               (_seen_jobs st) (state_file st).
Proof.
  unfold _request_json, bind, invoke, probe_call.
  match goal with |- context [requests_request ?m ?u ?p ?h ?t (world st)] =>
    destruct (requests_request m u p h t (world st)) as [[resp|e] w] eqn:Horacle;
    [|discriminate]; intros Hok; exists h, resp, w
  end.
  split; [exact Horacle|].
  destruct (resp_ok resp); [|discriminate]. cbn [negb] in Hok.
  destruct (resp_json resp) as [[]|]; try discriminate.
  injection Hok as <- <-. repeat split.
Qed.

Lemma fetch_loop_spec base name tried timeout key endpoints last (st : state) :
  (exists pre endpoint post st1 last1 payload st',
      endpoints = (pre ++ endpoint :: post)%list
      /\ all_fetches_failed base timeout key pre st last st1 last1
      /\ _request_json base endpoint timeout key st1 = (Ok payload, st')
      /\ fetch_loop base name tried timeout key endpoints last st
         = (Ok (endpoint, payload), st'))
  \/
  (exists st' last',
      all_fetches_failed base timeout key endpoints st last st' last'
      /\ fetch_loop base name tried timeout key endpoints last st
         = (Raise (RuntimeError (fetch_failed_message name tried last')), st')).
Proof.
  revert last st; induction endpoints as [|endpoint rest IH]; intros last st.
  - right. exists st, last. split; [constructor|reflexivity].
  - cbn [fetch_loop]. unfold try_except, bind.
    destruct (_request_json base endpoint timeout key st) as [[payload|e] st1] eqn:Hreq.
    + left. exists [], endpoint, rest, st, last, payload, st1.
      repeat split; auto. constructor.
    + cbn [any_exception].
      destruct (IH (Some e) st1)
        as [(pre & ep & post & st2 & last2 & payload & st' & Heq & Hfail & Hok & Hloop)
           |(st' & last' & Hfail & Hloop)].
      * left. exists (endpoint :: pre), ep, post, st2, last2, payload, st'.
        repeat split; auto.
        -- simpl. now rewrite Heq.
        -- econstructor; eauto.
      * right. exists st', last'. split; [econstructor; eauto|exact Hloop].
Qed.

(** X21. [_fetch_with_fallback] sends GET requests to the endpoints in their
    order.  It returns at the first endpoint whose request yields a JSON
    object, with that endpoint and that object, in the state right after
    that request: every endpoint before it raised, and no endpoint after it
    is requested.  A failure of any kind moves on to the next endpoint, and
    when all have failed a [RuntimeError] is raised that carries the text
    of the last failure. *)
Theorem fetch_with_fallback_order (base name : string) (endpoints : list string)
    (timeout : Z) (key : option string) (st : state) :
  (exists pre endpoint post st1 last1 payload st',
      endpoints = (pre ++ endpoint :: post)%list
      /\ all_fetches_failed base timeout key pre st None st1 last1
      /\ _request_json base endpoint timeout key st1 = (Ok payload, st')
      /\ (exists headers resp w,
            requests_request "GET" (rstrip_char "/"%char base ++ endpoint) None
              headers timeout (world st1) = (Ok resp, w)
            /\ resp_ok resp = true
            /\ resp_json resp = Some (JObj payload)
            /\ st' = mkState w (calls st1 ++ [probe_call base endpoint])
                       (_seen_jobs st1) (state_file st1))
      /\ _fetch_with_fallback base name endpoints timeout key st
         = (Ok (endpoint, payload), st')
      /\ calls st'
         = (calls st ++ map (probe_call base) (pre ++ [endpoint]))%list)
  \/
  (exists st' last',
      all_fetches_failed base timeout key endpoints st None st' last'
      /\ _fetch_with_fallback base name endpoints timeout key st
         = (Raise (RuntimeError (fetch_failed_message name endpoints last')), st')
      /\ calls st' = (calls st ++ map (probe_call base) endpoints)%list).
Proof.
  unfold _fetch_with_fallback.
  destruct (fetch_loop_spec base name endpoints timeout key endpoints None st)
    as [(pre & endpoint & post & st1 & last1 & payload & st' & Heq & Hfail & Hok & Hloop)
       |(st' & last' & Hfail & Hloop)].
  - left. exists pre, endpoint, post, st1, last1, payload, st'.
    split; [exact Heq|]. split; [exact Hfail|]. split; [exact Hok|].
    split; [exact (_request_json_ok _ _ _ _ _ _ _ Hok)|]. split; [exact Hloop|].
    pose proof (_request_json_frame base endpoint timeout key st1) as Hc.
    rewrite Hok in Hc. cbn [snd] in Hc.
    rewrite Hc, (fetches_failed_calls _ _ _ _ _ _ _ _ Hfail), map_app, <- app_assoc.
    reflexivity.
  - right. exists st', last'. split; [exact Hfail|]. split; [exact Hloop|].
    exact (fetches_failed_calls _ _ _ _ _ _ _ _ Hfail).
Qed.

End Probe.

(** ** Provider calls and jobs without an id *)

(** X22. A provider call never returns an empty text: an empty or absent
    SDK answer is raised as an error.  An OpenAI target on a client without
    OpenAI client raises without calling the SDK. *)
Theorem provider_call_text (self : LLMFailoverClient) (target : ModelTarget)
    (prompt system_prompt : string) (st : state) :
  (forall text st',
     provider_call self target prompt system_prompt st = (Ok text, st') -> text <> "")
  /\ (provider target <> "gemini" -> _openai_client self = None ->
      provider_call self target prompt system_prompt st
      = (Raise (RuntimeError "OpenAI client is not configured"), st)).
Proof.
  unfold provider_call, _generate_gemini, _generate_openai, bind. split.
  - intros text st'.
    destruct (String.eqb (provider target) "gemini").
    + destruct (invoke _ _ st) as [[[reply|]|e] st1]; try discriminate.
      destruct reply; cbn; [discriminate|].
      intros Hok. injection Hok as <- <-. discriminate.
    + destruct (_openai_client self); [|discriminate].
      destruct (invoke _ _ st) as [[[reply|]|e] st1]; try discriminate.
      destruct reply; cbn; [discriminate|].
      intros Hok. injection Hok as <- <-. discriminate.
  - intros Hprovider Hclient. apply String.eqb_neq in Hprovider.
    now rewrite Hprovider, Hclient.
Qed.

(** X23. A job record without an [id], or whose [id] is the empty text, is
    dropped before anything else: no call is made and the state is as
    before. *)
Theorem job_without_id_is_dropped (self : AgentRunner) (job : dict) (st : state) :
  lookup job "id" = None \/ lookup job "id" = Some (JStr "") ->
  _process_job self job st = (Ok tt, st).
Proof.
  intros Hid.
  assert (Hempty : job_id_of job = "").
  { unfold job_id_of, get_default. now destruct Hid as [-> | ->]. }
  now rewrite _process_job_unfold, Hempty.
Qed.

End Properties.

(** * The properties on the repository's test scenarios *)

#[local] Existing Instance ordered_builtins.
#[local] Existing Instance scripted_world.

(** [test_generate_falls_back_between_targets]: Gemini is down, OpenAI
    answers. *)
Lemma generate_first_success_witness :
  exists st',
    generate test_llm "hello" "system"
      (start (mkScript [] [Raise (RuntimeError "gemini down")] [Ok (Some " final ")]) [])
    = (Ok ("final", "openai:o1"), st')
    /\ calls st'
       = [GeminiCall "g1"
            ("system" ++ nl ++ nl ++ "User task:" ++ nl ++ "hello" ++ nl ++ nl ++
             "Return only the final answer for the user.");
          OpenAICall "o1" "system" "hello"].
Proof.
  eexists. split.
  - eapply (generate_first_success test_llm "hello" "system" _
              [mkTarget "gemini" "g1"] (mkTarget "openai" "o1") [] _ _ " final ").
    + reflexivity.
    + econstructor;
        [eapply (fails_raise test_llm "hello" "system" (mkTarget "gemini" "g1") _
                   (RuntimeError "gemini down")); reflexivity
        |constructor].
    + reflexivity.
    + discriminate.
  - reflexivity.
Defined.

(** Gemini is down and OpenAI returns blanks: the message lists both
    failures in order. *)
Lemma generate_exhausted_witness :
  exists st',
    generate test_llm "x" "y"
      (start (mkScript [] [Raise (RuntimeError "gemini down")] [Ok (Some "   ")]) [])
    = (Raise (RuntimeError
                "All configured models failed. gemini:g1 failed: gemini down | openai:o1 returned empty output"),
       st').
Proof.
  assert (Hall : exists st',
            all_failed test_llm "x" "y" (targets test_llm)
              (start (mkScript [] [Raise (RuntimeError "gemini down")] [Ok (Some "   ")]) [])
              ["gemini:g1 failed: gemini down"; "openai:o1 returned empty output"] st').
  { eexists.
    econstructor;
      [eapply (fails_raise test_llm "x" "y" (mkTarget "gemini" "g1") _
                 (RuntimeError "gemini down")); reflexivity|].
    econstructor;
      [eapply (fails_blank test_llm "x" "y" (mkTarget "openai" "o1") _ "   ");
       reflexivity|].
    constructor. }
  destruct Hall as [st' Hall]. exists st'.
  exact (proj1 (generate_exhausted _ _ _ _ _ _ Hall)).
Defined.

(** C5 as stated fails: the effective budget of a SWARM job without
    [budgetPerAgent] is its [budget], not the 0 of the specification. *)
Lemma effective_budget_swarm_uses_budget :
  _effective_budget swarm_job_with_budget = Ok float_five
  /\ budget_in_spec_words swarm_job_with_budget = float_zero
  /\ _effective_budget swarm_job_with_budget
     <> Ok (budget_in_spec_words swarm_job_with_budget).
Proof.
  split; [reflexivity|]. split; [reflexivity|]. discriminate.
Qed.

(** C5 on a SWARM job whose [budgetPerAgent] is the text [abc]: 0, not
    its [budget]. *)
Lemma effective_budget_coerces_source_witness :
  _effective_budget swarm_job_bad_budget = Ok float_zero.
Proof.
  assert (Hno : forall m,
            py_float (budget_source swarm_job_bad_budget) <> Raise (OverflowError m)).
  { intros m Hm. vm_compute in Hm. discriminate. }
  exact (effective_budget_coerces_source swarm_job_bad_budget Hno).
Defined.

(** An integer beyond the range of a double is not caught. *)
Example effective_budget_overflow :
  _effective_budget [("id", JStr "9"); ("budget", JInt (10 ^ 400))]
  = Raise (OverflowError "int too large to convert to float").
Proof. vm_compute. reflexivity. Qed.

(** C4 on the failing input.  With a set that enumerates back to front,
    persisting id ["1000"] on the full store keeps the oldest id ["0"] and
    drops the id just inserted: the file is the first 1000 ids in reverse
    order, not ids ["1"] to ["1000"] in insertion order. *)
Lemma mark_seen_at_cap_reversed :
  let st' := snd (@_mark_seen reversing_builtins scripted_world test_runner "1000" full_store) in
  _seen_jobs st' = job_ids 1001
  /\ persisted (state_file st') = map JStr (rev (job_ids 1000))
  /\ existsb (fun v => eq_str v "0") (persisted (state_file st')) = true
  /\ existsb (fun v => eq_str v "1000") (persisted (state_file st')) = false.
Proof. vm_compute. repeat split; reflexivity. Qed.

(** With a set that enumerates in insertion order the same persist drops
    the oldest id. *)
Example mark_seen_at_cap_ordered :
  let st' := snd (@_mark_seen ordered_builtins scripted_world test_runner "1000" full_store) in
  persisted (state_file st') = map JStr (skipn 1 (job_ids 1001)).
Proof. vm_compute. reflexivity. Qed.



(** An archive path as the runner builds it. *)
Lemma upload_file_behaviour_witness :
  path_is_normal "/tmp/seedstr-2-x/seedstr-job-2-response.zip" = true
  /\ path_name "/tmp/seedstr-2-x/seedstr-job-2-response.zip"
     = "seedstr-job-2-response.zip"
  /\ path_name "/tmp/seedstr-2-x/seedstr-job-2-response.zip" <> "".
Proof.
  assert (Hnormal : path_is_normal "/tmp/seedstr-2-x/seedstr-job-2-response.zip" = true)
    by reflexivity.
  split; [exact Hnormal|]. split; [reflexivity|].
  exact (proj1 (proj2 (upload_file_behaviour test_client _ (start submit_script [])
                         Hnormal))).
Defined.

(** Every model is down: the job fails at generation and stays out of the
    store. *)
Example process_job_generation_fails :
  _process_job test_runner job_2 (start (mkScript [] [] []) [])
  = (Ok tt,
     mkState (mkScript [] [] [])
       [GeminiCall "g1"
          (system_prompt_text ++ nl ++ nl ++ "User task:" ++ nl ++ "solve this" ++
           nl ++ nl ++ "Return only the final answer for the user.");
        OpenAICall "o1" system_prompt_text "solve this"]
       [] Missing).
Proof. vm_compute. reflexivity. Qed.

(** A job whose id is in the store. *)
Lemma seen_job_is_skipped_witness :
  _process_job test_runner job_2 (start submit_script ["1"; "2"])
  = (Ok tt, start submit_script ["1"; "2"]).
Proof.
  apply (seen_job_is_skipped test_runner job_2 (start submit_script ["1"; "2"])).
  reflexivity.
Defined.

(** An empty upload result: one request, the text fallback. *)
Lemma respond_file_text_only_witness :
  let st := start (mkScript [ok_reply (JObj [("ok", JBool true)])] [] []) [] in
  calls (snd (respond_file test_client "job-1" [] "fallback" st))
  = [HttpCall "POST" "https://api.example.com/jobs/job-1/respond"
       (Some (JObj [("responseType", JStr "TEXT"); ("content", JStr "fallback")]))]
  /\ fst (respond_file test_client "job-1" [] "fallback" st)
     = Ok (JObj [("ok", JBool true)]).
Proof.
  intros st.
  destruct (respond_file_text_only test_client "job-1" [] "fallback" st
              eq_refl eq_refl) as (_ & _ & Hcalls & Hok).
  split; [exact Hcalls|]. apply Hok. reflexivity.
Defined.

(** [test_respond_file_uses_first_successful_payload]: the first shape is
    rejected, the second accepted, and nothing is sent after it. *)
Example respond_file_second_attempt :
  let upload_result := [("files", JList [JObj [("url", JStr "https://cdn.example/file.zip")]])] in
  let st := start (mkScript [error_reply 400 "first failed";
                             ok_reply (JObj [("ok", JBool true)])] [] []) [] in
  fst (respond_file test_client "job-1" upload_result "fallback" st)
  = Ok (JObj [("ok", JBool true)])
  /\ List.length (calls (snd (respond_file test_client "job-1" upload_result "fallback" st))) = 2.
Proof. vm_compute. split; reflexivity. Qed.

(** [test_respond_file_raises_when_all_attempts_fail] *)
Example respond_file_all_rejected :
  let upload_result := [("files", JList [JObj [("url", JStr "x")]])] in
  let st := start (mkScript (repeat (error_reply 500 "nope") 8) [] []) [] in
  fst (respond_file test_client "job-1" upload_result "fallback" st)
  = Raise (SeedstrApiError "Failed to submit file response for job job-1: nope")
  /\ List.length (calls (snd (respond_file test_client "job-1" upload_result "fallback" st))) = 8.
Proof. vm_compute. split; reflexivity. Qed.

(** [test_create_submission_archive_contents] *)
Example archive_contents :
  let members := archive_members "job-x" "what is up" "all good" "openai:test"
                   "2024-05-01T12:00:00+00:00" in
  map fst members = ["response.txt"; "prompt.txt"; "metadata.json"]
  /\ assoc members "response.txt" = Some ("all good" ++ nl)
  /\ match assoc members "metadata.json" with
     | Some text =>
         json_loads_str_object text
         = Some [("job_id", "job-x"); ("model", "openai:test");
                 ("generated_at_utc", "2024-05-01T12:00:00+00:00")]
     | None => False
     end.
Proof. vm_compute. repeat split; reflexivity. Qed.

(** [test_init_requires_any_models] *)
Example init_without_providers :
  LLMFailoverClient_init "" "" [] []
  = Raise (ValueError
             "No LLM models configured. Set GEMINI_API_KEY/OPENAI_API_KEY with model lists.").
Proof. reflexivity. Qed.

(** * Further properties on the test scenarios *)

(** [GEMINI_MODELS=g1,g2] *)
Lemma split_models_join_witness : _split_models (join "," ["g1"; "g2"]) = ["g1"; "g2"].
Proof.
  apply (split_models_join ["g1"; "g2"]).
  repeat constructor; discriminate.
Defined.

Lemma generate_answer_clean_witness :
  "final" <> "" /\ strip "final" = "final"
  /\ exists target, In target (targets test_llm) /\ "openai:o1" = target_label target.
Proof.
  apply (generate_answer_clean test_llm "hello" "system"
           (start (mkScript [] [Raise (RuntimeError "gemini down")] [Ok (Some " final ")]) [])
           "final" "openai:o1"
           (snd (generate test_llm "hello" "system"
                   (start (mkScript [] [Raise (RuntimeError "gemini down")]
                             [Ok (Some " final ")]) [])))).
  apply run_result. vm_compute. reflexivity.
Defined.

Lemma generate_calls_per_target_witness :
  exists n,
    1 <= n <= 2
    /\ calls (snd (generate test_llm "hello" "system"
                     (start (mkScript [] [Raise (RuntimeError "gemini down")]
                               [Ok (Some " final ")]) [])))
       = map (sdk_call "hello" "system") (firstn n (targets test_llm)).
Proof.
  destruct (generate_calls_per_target "g" "o" ["g1"] ["o1"] test_llm "hello" "system"
              (start (mkScript [] [Raise (RuntimeError "gemini down")]
                        [Ok (Some " final ")]) []) eq_refl)
    as (n & Hn & Hcalls & _).
  exists n. split; [exact Hn|exact Hcalls].
Defined.

Lemma process_job_store_grows_witness :
  NoDup (_seen_jobs (snd (_process_job test_runner job_1 (start listing_down ["7"]))))
  /\ incl ["7"] (_seen_jobs (snd (_process_job test_runner job_1 (start listing_down ["7"])))).
Proof.
  assert (Hnodup : NoDup (_seen_jobs (start listing_down ["7"]))).
  { repeat constructor. intros []. }
  destruct (process_job_store_grows test_runner job_1 (start listing_down ["7"]) Hnodup)
    as (Hn & Hi & _).
  split; [exact Hn|exact Hi].
Defined.

(** [test_skips_low_budget_and_marks_seen], and the same job again. *)
Lemma marked_job_not_reprocessed_witness :
  _process_job test_runner job_1
    (snd (_process_job test_runner job_1 (start listing_down [])))
  = (Ok tt, snd (_process_job test_runner job_1 (start listing_down []))).
Proof.
  assert (Hrun : run_job test_runner job_1 (start listing_down []) SkippedUnderBudget
                   (start listing_down [])).
  { apply (run_under_budget test_runner job_1 (start listing_down []) float_tenth).
    - intros Hid. vm_compute in Hid. discriminate.
    - reflexivity.
    - reflexivity.
    - reflexivity. }
  apply (marked_job_not_reprocessed test_runner job_1 (start listing_down [])
           SkippedUnderBudget (start listing_down []) Hrun eq_refl).
  apply incl_refl.
Defined.

Lemma persist_then_load_witness :
  _load_seen_jobs (state_file (snd (_mark_seen test_runner "2" (start listing_down ["1"]))))
  = ["1"; "2"].
Proof.
  assert (Hnodup : NoDup (_seen_jobs (start listing_down ["1"]))).
  { repeat constructor. intros []. }
  destruct (persist_then_load test_runner "2" (start listing_down ["1"]) Hnodup)
    as (Hload & _).
  rewrite Hload. reflexivity.
Defined.

(** [run_once] when the listing is refused. *)
Lemma run_once_quiet_witness :
  fst (run_once test_runner (start listing_down ["1"])) = Ok tt
  /\ calls (snd (run_once test_runner (start listing_down ["1"])))
     = [HttpCall "GET" "https://api.example.com/jobs?limit=10&offset=0" None].
Proof.
  assert (Hlist : list_jobs (api test_runner) (max_jobs_per_cycle (settings test_runner)) 0
                    (start listing_down ["1"])
                  = (Raise (SeedstrApiError "down"),
                     snd (list_jobs (api test_runner)
                            (max_jobs_per_cycle (settings test_runner)) 0
                            (start listing_down ["1"])))).
  { apply run_result. vm_compute. reflexivity. }
  destruct (run_once_quiet test_runner (start listing_down ["1"]) _
              (or_introl (ex_intro _ "down" Hlist))) as (Hrun & Hcalls & _).
  rewrite Hrun. cbn [fst snd]. split; [reflexivity|]. rewrite Hcalls. reflexivity.
Defined.

Lemma run_once_store_grows_witness :
  NoDup (_seen_jobs (snd (run_once test_runner (start listing_down ["1"]))))
  /\ incl ["1"] (_seen_jobs (snd (run_once test_runner (start listing_down ["1"])))).
Proof.
  assert (Hnodup : NoDup (_seen_jobs (start listing_down ["1"]))).
  { repeat constructor. intros []. }
  exact (run_once_store_grows test_runner (start listing_down ["1"]) Hnodup).
Defined.

Lemma under_budget_no_call_witness :
  fst (_process_job test_runner job_1 (start submit_script [])) = Ok tt
  /\ calls (snd (_process_job test_runner job_1 (start submit_script []))) = []
  /\ In "1" (_seen_jobs (snd (_process_job test_runner job_1 (start submit_script [])))).
Proof.
  assert (Hid : job_id_of job_1 <> "").
  { intros Hid. vm_compute in Hid. discriminate. }
  destruct (under_budget_no_call test_runner job_1 (start submit_script []) float_tenth
              Hid eq_refl eq_refl eq_refl) as (Hret & Hcalls & _ & Hin).
  split; [exact Hret|]. split; [exact Hcalls|exact Hin].
Defined.

(** [test_accepts_swarm_before_submit] *)
Lemma swarm_accept_comes_first_witness :
  exists later,
    calls (snd (_process_job test_runner job_3 (start submit_script [])))
    = HttpCall "POST" "https://api.example.com/jobs/3/accept" None :: later.
Proof.
  assert (Hid : job_id_of job_3 <> "").
  { intros Hid. vm_compute in Hid. discriminate. }
  exact (swarm_accept_comes_first test_runner job_3 (start submit_script []) float_three
           Hid eq_refl eq_refl eq_refl eq_refl).
Defined.

(** A record with a prompt and a budget but no id. *)
Lemma job_without_id_is_dropped_witness :
  _process_job test_runner [("budget", JFloat float_two); ("prompt", JStr "solve this")]
    (start submit_script [])
  = (Ok tt, start submit_script []).
Proof.
  apply (job_without_id_is_dropped test_runner
           [("budget", JFloat float_two); ("prompt", JStr "solve this")]
           (start submit_script [])).
  left. reflexivity.
Defined.
